(** * salt.modules.sysmod: registry introspection queries

    A shallow embedding of [salt/modules/sysmod.py].  The module answers
    queries over the loader's tables of callables: documentation per
    function ([doc], [state_doc], ...), function names ([list_functions],
    ...) and module names ([list_modules], ...).

    Python values are embedded as follows.
    - [str] is [string]; comparison is bytewise ([String.le]).
    - A loader table (a [dict] from qualified name to callable) is a list
      of (name, callable) pairs: the list order is the dict's iteration
      order, and the names of a dict are pairwise distinct ([NoDup]).
    - The [docs] dict built by the doc queries is a [gmap], the [names] and
      [modules] sets are [gset]s.
    - An exception aborts the call: every query returns a [result]. *)

From Stdlib Require Import Ascii.
From stdpp Require Import base option list sorting gmap strings.

#[local] Set Warnings "-clear-no-such-hyp".
Local Open Scope char_scope.

(** ** Python builtins used by the module *)

(** [raise]: the only exception these queries can meet is the one [re]
    raises when [fnmatch] compiles a pattern. *)
Inductive exn : Type :=
  | re_error (msg : string).

Inductive result (A : Type) : Type :=
  | Ok (a : A)
  | Raise (e : exn).
Arguments Ok {A} a.
Arguments Raise {A} e.

Global Instance result_bind : MBind result := λ A B k r,
  match r with
  | Ok a => k a
  | Raise e => Raise e
  end.

(** [for x in l: s = body(s, x)], leaving the loop at the first exception. *)
Fixpoint for_ {A S} (l : list A) (s : S) (body : S → A → result S) : result S :=
  match l with
  | [] => Ok s
  | x :: l' => s' ← body s x; for_ l' s' body
  end.

Definition raises {A} (r : result A) : Prop :=
  match r with
  | Ok _ => False
  | Raise _ => True
  end.

(** [c in s] for a one-character [c]. *)
Fixpoint contains (c : ascii) (s : string) : bool :=
  match s with
  | EmptyString => false
  | String a s' => Ascii.eqb a c || contains c s'
  end.

(** [s.startswith(p)]. *)
Fixpoint startswith (s p : string) : bool :=
  match p with
  | EmptyString => true
  | String b p' =>
      match s with
      | EmptyString => false
      | String a s' => Ascii.eqb a b && startswith s' p'
      end
  end.

(** [s.endswith(c)] for a one-character [c]. *)
Fixpoint endswith (s : string) (c : ascii) : bool :=
  match s with
  | EmptyString => false
  | String a EmptyString => Ascii.eqb a c
  | String _ s' => endswith s' c
  end.

(** Truth value of a string: [if s:]. *)
Definition truthy (s : string) : bool :=
  match s with
  | EmptyString => false
  | String _ _ => true
  end.

(** [s.split(sep)]: the pieces between the occurrences of [sep]; never
    empty. *)
Fixpoint split (sep : ascii) (s : string) : list string :=
  match s with
  | EmptyString => [EmptyString]
  | String a s' =>
      if Ascii.eqb a sep then EmptyString :: split sep s'
      else match split sep s' with
           | piece :: pieces => String a piece :: pieces
           | [] => [String a EmptyString]
           end
  end.

(** [comps[0]] of a split. *)
Definition item0 (comps : list string) : string := hd EmptyString comps.

(** [sorted(xs)] on strings. *)
Definition sorted (xs : list string) : list string := merge_sort String.le xs.

(** ** The glob matcher: Python's [fnmatch.filter] on a POSIX host

    [fnmatch.translate] turns the pattern into a regular expression, which
    [re.compile] parses and [match] runs anchored at both ends:
    [*] becomes [.*], [?] becomes [.], [[seq]] a character set (a leading
    [!] negates it) and every other character stands for itself.  A [[]
    without a closing bracket is an ordinary character.  On POSIX
    [os.path.normcase] is the identity, so matching is case-sensitive. *)
Module fnmatch.

Inductive node : Type :=
  | AnyStar                       (* [.*] *)
  | AnyChar                       (* [.] *)
  | Literal (c : ascii)
  | Bracket (negate : bool) (body : list ascii).

(** [while j < n and pat[j] != ']': j = j+1], from the text after [j]:
    the characters passed over, if a closing bracket is found. *)
Fixpoint scan_close (s : list ascii) : option (list ascii) :=
  match s with
  | [] => None
  | c :: s' =>
      if Ascii.eqb c "]" then Some []
      else match scan_close s' with
           | Some body => Some (c :: body)
           | None => None
           end
  end.

(** The bracket expression that starts the text [s] (the text after the
    opening bracket): whether it is negated and its body [pat[i:j]]
    without the [!], when there is a closing bracket. *)
Definition bracket (s : list ascii) : option (bool * list ascii) :=
  let '(negate, s1) :=
    match s with
    | c :: t => if Ascii.eqb c "!" then (true, t) else (false, s)
    | [] => (false, s)
    end in
  match s1 with
  | c :: t =>
      if Ascii.eqb c "]"
      then match scan_close t with
           | Some body => Some (negate, c :: body)
           | None => None
           end
      else match scan_close s1 with
           | Some body => Some (negate, body)
           | None => None
           end
  | [] => None
  end.

(** The loop of [translate]; [skip] counts the characters of a bracket
    expression that [i = j+1] jumps over. *)
Fixpoint translate_from (skip : nat) (s : list ascii) : list node :=
  match s with
  | [] => []
  | c :: s' =>
      match skip with
      | S k => translate_from k s'
      | O =>
          if Ascii.eqb c "*" then AnyStar :: translate_from 0 s'
          else if Ascii.eqb c "?" then AnyChar :: translate_from 0 s'
          else if Ascii.eqb c "[" then
            match bracket s' with
            | Some (negate, body) =>
                Bracket negate body
                :: translate_from
                     ((if negate then 1 else 0) + length body + 1)%nat s'
            | None => Literal "[" :: translate_from 0 s'
            end
          else Literal c :: translate_from 0 s'
      end
  end.

Definition translate (pat : string) : list node :=
  translate_from 0 (Strings.String.list_ascii_of_string pat).

(** What [re] makes of the body of a character set: single characters
    and ranges [lo-hi]; a [-] just before the closing bracket is a
    character.  A range whose end is below its start is rejected. *)
Fixpoint set_items (body : list ascii) : result (list (ascii * ascii)) :=
  match body with
  | [] => Ok []
  | lo :: rest =>
      match rest with
      | dash :: rest' =>
          if Ascii.eqb dash "-" then
            match rest' with
            | [] => Ok [(lo, lo); (dash, dash)]
            | hi :: rest'' =>
                if (nat_of_ascii hi <? nat_of_ascii lo)%nat
                then Raise (re_error "bad character range")
                else items ← set_items rest''; Ok ((lo, hi) :: items)
            end
          else items ← set_items rest; Ok ((lo, lo) :: items)
      | [] => Ok [(lo, lo)]
      end
  end.

Inductive code : Type :=
  | ANY_STAR
  | ANY
  | LITERAL (c : ascii)
  | IN (negate : bool) (items : list (ascii * ascii)).

(** [re.compile] of the translated pattern. *)
Fixpoint compile (nodes : list node) : result (list code) :=
  match nodes with
  | [] => Ok []
  | n :: nodes' =>
      c ← match n with
          | AnyStar => Ok ANY_STAR
          | AnyChar => Ok ANY
          | Literal a => Ok (LITERAL a)
          | Bracket negate body =>
              items ← set_items body; Ok (IN negate items)
          end;
      cs ← compile nodes';
      Ok (c :: cs)
  end.

Definition in_items (a : ascii) (items : list (ascii * ascii)) : bool :=
  existsb (λ '(lo, hi),
    (nat_of_ascii lo <=? nat_of_ascii a)%nat
    && (nat_of_ascii a <=? nat_of_ascii hi)%nat) items.

(** [re_pat.match(name)]: the whole of [s] is matched by [re]. *)
Fixpoint matches (re : list code) (s : list ascii) : bool :=
  match re with
  | [] => match s with [] => true | _ :: _ => false end
  | ANY_STAR :: re' =>
      (fix star (s : list ascii) : bool :=
         matches re' s
         || match s with
            | [] => false
            | _ :: s' => star s'
            end) s
  | ANY :: re' =>
      match s with
      | _ :: s' => matches re' s'
      | [] => false
      end
  | LITERAL c :: re' =>
      match s with
      | a :: s' => Ascii.eqb a c && matches re' s'
      | [] => false
      end
  | IN negate items :: re' =>
      match s with
      | a :: s' => xorb negate (in_items a items) && matches re' s'
      | [] => false
      end
  end.

(** [fnmatch.filter(names, pat)] over the items of a table, each
    carrying its name: the items whose name matches, in order. *)
Definition filter {A} (name : A → string) (names : list A) (pat : string)
  : result (list A) :=
  re_pat ← compile (translate pat);
  Ok (List.filter (λ x, matches re_pat (Strings.String.list_ascii_of_string (name x))) names).

(** One name against one pattern. *)
Definition fnmatchcase (name pat : string) : result bool :=
  re_pat ← compile (translate pat);
  Ok (matches re_pat (Strings.String.list_ascii_of_string name)).

End fnmatch.

Local Open Scope string_scope.

(** ** The loader's tables *)

(** What the queries read of a loaded function: its docstring [__doc__]
    (or [None]) and, when it has a [__globals__] attribute, the [__doc__]
    of the module that defines it ([__globals__['__doc__']], or [None]). *)
Record callable : Type := Callable {
  __doc__ : option string;
  __globals__ : option (option string)
}.

(** A loader dict, in iteration order. *)
Abbreviation table := (list (string * callable)).

Definition keys (d : table) : list string := d.*1.

(** The [docs] dict of the doc queries. *)
Abbreviation docs_t := (gmap string (option string)).

(** The tables the queries of one minion read: [__salt__],
    [salt.state.State(__opts__).states],
    [salt.runner.Runner(__opts__).functions],
    [salt.loader.returners(__opts__, [])] and
    [salt.loader.render(__opts__, [])]. *)
Record minion : Type := Minion {
  salt_functions : table;
  state_functions : table;
  runner_functions : table;
  returner_functions : table;
  renderer_functions : table
}.

(** ** The queries of [sysmod.py] *)

Section sysmod.

(** Modelled from the spec: the doc-text normaliser
    ([salt.utils.doc.strip_rst], not under src/) rewrites a
    documentation text for display. *)
Variable strip_text : string → string.

(** Modelled from the spec: [_strip_rst(docs)] passes every non-empty
    documentation text of the mapping through the normaliser and keeps
    the mapping's keys. *)
Definition _strip_rst (docs : docs_t) : docs_t :=
  (λ docstring : option string,
     match docstring with
     | Some text => if truthy text then Some (strip_text text) else docstring
     | None => None
     end) <$> docs.

(** [target_mod] as the doc queries compute it from [module]. *)
Definition doc_target (module : string) : string :=
  if contains "*" module then module
  else if truthy module then
    (if endswith module "." then module else module +:+ ".")
  else "".

Definition doc (__salt__ : table) (args : list string) : result docs_t :=
  match args with
  | [] =>
      Ok (_strip_rst
            (foldl (λ docs fn, <[fn.1 := __doc__ fn.2]> docs) ∅ __salt__))
  | _ :: _ =>
      docs ← for_ args (∅ : docs_t) (λ docs module,
        let _use_fnmatch := contains "*" module in
        let target_mod := doc_target module in
        if _use_fnmatch then
          funs ← fnmatch.filter fst __salt__ target_mod;
          Ok (foldl (λ docs fn, <[fn.1 := __doc__ fn.2]> docs) docs funs)
        else
          Ok (foldl (λ docs fn,
                if String.eqb fn.1 module || startswith fn.1 target_mod
                then <[fn.1 := __doc__ fn.2]> docs
                else docs) docs __salt__));
      Ok (_strip_rst docs)
  end.

(** [if state not in docs: if hasattr(f, '__globals__'):
    docs[state] = f.__globals__['__doc__']]. *)
Definition record_state_once (state : string) (f : callable) (docs : docs_t)
  : docs_t :=
  match docs !! state with
  | Some _ => docs
  | None =>
      match __globals__ f with
      | Some module_doc => <[state := module_doc]> docs
      | None => docs
      end
  end.

(** [if hasattr(f, '__globals__'):
    docs[state] = f.__globals__['__doc__']]. *)
Definition record_state (state : string) (f : callable) (docs : docs_t)
  : docs_t :=
  match __globals__ f with
  | Some module_doc => <[state := module_doc]> docs
  | None => docs
  end.

Definition state_doc (states : table) (args : list string) : result docs_t :=
  match args with
  | [] =>
      Ok (_strip_rst
            (foldl (λ docs fn,
               let state := item0 (split "." fn.1) in
               let docs := record_state_once state fn.2 docs in
               <[fn.1 := __doc__ fn.2]> docs) ∅ states))
  | _ :: _ =>
      docs ← for_ args (∅ : docs_t) (λ docs module,
        let _use_fnmatch := contains "*" module in
        let target_mod := doc_target module in
        if _use_fnmatch then
          funs ← fnmatch.filter fst states target_mod;
          Ok (foldl (λ docs fn,
                let state := item0 (split "." fn.1) in
                let docs := record_state state fn.2 docs in
                <[fn.1 := __doc__ fn.2]> docs) docs funs)
        else
          Ok (foldl (λ docs fn,
                if String.eqb fn.1 module || startswith fn.1 target_mod
                then
                  let state := item0 (split "." module) in
                  let docs := record_state_once state fn.2 docs in
                  <[fn.1 := __doc__ fn.2]> docs
                else docs) docs states));
      Ok (_strip_rst docs)
  end.

Definition runner_doc (functions : table) (args : list string)
  : result docs_t :=
  match args with
  | [] =>
      Ok (_strip_rst
            (foldl (λ docs fn, <[fn.1 := __doc__ fn.2]> docs) ∅ functions))
  | _ :: _ =>
      docs ← for_ args (∅ : docs_t) (λ docs module,
        let _use_fnmatch := contains "*" module in
        let target_mod := doc_target module in
        if _use_fnmatch then
          funs ← fnmatch.filter fst functions target_mod;
          Ok (foldl (λ docs fn, <[fn.1 := __doc__ fn.2]> docs) docs funs)
        else
          Ok (foldl (λ docs fn,
                if String.eqb fn.1 module || startswith fn.1 target_mod
                then <[fn.1 := __doc__ fn.2]> docs
                else docs) docs functions));
      Ok (_strip_rst docs)
  end.

(** Both branches of [returner_doc] run the same prefix test; the
    pattern never reaches [fnmatch]. *)
Definition returner_doc (returners_ : table) (args : list string)
  : result docs_t :=
  match args with
  | [] =>
      Ok (_strip_rst
            (foldl (λ docs fn, <[fn.1 := __doc__ fn.2]> docs) ∅ returners_))
  | _ :: _ =>
      docs ← for_ args (∅ : docs_t) (λ docs module,
        let _use_fnmatch := contains "*" module in
        let target_mod := doc_target module in
        if _use_fnmatch then
          Ok (foldl (λ docs fn,
                if String.eqb fn.1 module || startswith fn.1 target_mod
                then <[fn.1 := __doc__ fn.2]> docs
                else docs) docs returners_)
        else
          Ok (foldl (λ docs fn,
                if String.eqb fn.1 module || startswith fn.1 target_mod
                then <[fn.1 := __doc__ fn.2]> docs
                else docs) docs returners_));
      Ok (_strip_rst docs)
  end.

(** A pattern without [*] makes [renderer_doc] record every renderer. *)
Definition renderer_doc (renderers_ : table) (args : list string)
  : result docs_t :=
  match args with
  | [] =>
      Ok (_strip_rst
            (foldl (λ docs fn, <[fn.1 := __doc__ fn.2]> docs) ∅ renderers_))
  | _ :: _ =>
      docs ← for_ args (∅ : docs_t) (λ docs module,
        if contains "*" module then
          funs ← fnmatch.filter fst renderers_ module;
          Ok (foldl (λ docs fn, <[fn.1 := __doc__ fn.2]> docs) docs funs)
        else
          Ok (foldl (λ docs fn, <[fn.1 := __doc__ fn.2]> docs)
                docs renderers_));
      Ok (_strip_rst docs)
  end.

End sysmod.

(** [module] as the list queries rebind it before the prefix scan. *)
Definition list_target (module : string) : string :=
  if contains "*" module then module
  else if truthy module then
    (if endswith module "." then module else module +:+ ".")
  else module.

Definition list_functions (__salt__ : table) (args : list string)
  : result (list string) :=
  match args with
  | [] => Ok (sorted (keys __salt__))
  | _ :: _ =>
      names ← for_ args (∅ : gset string) (λ names module,
        let _use_fnmatch := contains "*" module in
        let target_mod := module in
        let module := list_target module in
        if _use_fnmatch then
          funs ← fnmatch.filter id (keys __salt__) target_mod;
          Ok (foldl (λ names func, {[func]} ∪ names) names funs)
        else
          Ok (foldl (λ names func,
                if startswith func module then {[func]} ∪ names else names)
                names (keys __salt__)));
      Ok (sorted (elements names))
  end.

Definition list_state_functions (states : table) (args : list string)
  : result (list string) :=
  match args with
  | [] => Ok (sorted (keys states))
  | _ :: _ =>
      names ← for_ args (∅ : gset string) (λ names module,
        let _use_fnmatch := contains "*" module in
        let target_mod := module in
        let module := list_target module in
        if _use_fnmatch then
          funs ← fnmatch.filter id (keys states) target_mod;
          Ok (foldl (λ names func, {[func]} ∪ names) names funs)
        else
          Ok (foldl (λ names func,
                if startswith func module then {[func]} ∪ names else names)
                names (keys states)));
      Ok (sorted (elements names))
  end.

Definition list_runner_functions (functions : table) (args : list string)
  : result (list string) :=
  match args with
  | [] => Ok (sorted (keys functions))
  | _ :: _ =>
      names ← for_ args (∅ : gset string) (λ names module,
        let _use_fnmatch := contains "*" module in
        let target_mod := module in
        let module := list_target module in
        if _use_fnmatch then
          funs ← fnmatch.filter id (keys functions) target_mod;
          Ok (foldl (λ names func, {[func]} ∪ names) names funs)
        else
          Ok (foldl (λ names func,
                if startswith func module then {[func]} ∪ names else names)
                names (keys functions)));
      Ok (sorted (elements names))
  end.

(** Both branches of [list_returner_functions] run the prefix scan. *)
Definition list_returner_functions (returners_ : table) (args : list string)
  : result (list string) :=
  match args with
  | [] => Ok (sorted (keys returners_))
  | _ :: _ =>
      names ← for_ args (∅ : gset string) (λ names module,
        let _use_fnmatch := contains "*" module in
        let module := list_target module in
        if _use_fnmatch then
          Ok (foldl (λ names func,
                if startswith func module then {[func]} ∪ names else names)
                names (keys returners_))
        else
          Ok (foldl (λ names func,
                if startswith func module then {[func]} ∪ names else names)
                names (keys returners_)));
      Ok (sorted (elements names))
  end.

(** [comps = func.split('.'); if len(comps) < 2: continue;
    modules.add(comps[0])]. *)
Definition add_module (modules : gset string) (func : string) : gset string :=
  let comps := split "." func in
  if (length comps <? 2)%nat then modules else {[item0 comps]} ∪ modules.

Definition list_modules (__salt__ : table) (args : list string)
  : result (list string) :=
  match args with
  | [] => Ok (sorted (elements (foldl add_module ∅ (keys __salt__))))
  | _ :: _ =>
      modules ← for_ args (∅ : gset string) (λ modules module,
        funs ← fnmatch.filter id (keys __salt__) module;
        Ok (foldl add_module modules funs));
      Ok (sorted (elements modules))
  end.

Definition list_state_modules (states : table) (args : list string)
  : result (list string) :=
  match args with
  | [] => Ok (sorted (elements (foldl add_module ∅ (keys states))))
  | _ :: _ =>
      modules ← for_ args (∅ : gset string) (λ modules module,
        funs ← fnmatch.filter id (keys states) module;
        Ok (foldl add_module modules funs));
      Ok (sorted (elements modules))
  end.

Definition list_runners (functions : table) (args : list string)
  : result (list string) :=
  match args with
  | [] => Ok (sorted (elements (foldl add_module ∅ (keys functions))))
  | _ :: _ =>
      runners ← for_ args (∅ : gset string) (λ runners module,
        funs ← fnmatch.filter id (keys functions) module;
        Ok (foldl add_module runners funs));
      Ok (sorted (elements runners))
  end.

Definition list_returners (returners_ : table) (args : list string)
  : result (list string) :=
  match args with
  | [] => Ok (sorted (elements (foldl add_module ∅ (keys returners_))))
  | _ :: _ =>
      returners ← for_ args (∅ : gset string) (λ returners module,
        funs ← fnmatch.filter id (keys returners_) module;
        Ok (foldl add_module returners funs));
      Ok (sorted (elements returners))
  end.

(** [list_renderers] adds the names themselves: renderers are not
    grouped in modules. *)
Definition list_renderers (ren_ : table) (args : list string)
  : result (list string) :=
  match args with
  | [] =>
      Ok (sorted (elements
            (foldl (λ ren func, {[func]} ∪ ren) (∅ : gset string) (keys ren_))))
  | _ :: _ =>
      ren ← for_ args (∅ : gset string) (λ ren module,
        funs ← fnmatch.filter id (keys ren_) module;
        Ok (foldl (λ ren func, {[func]} ∪ ren) ren funs));
      Ok (sorted (elements ren))
  end.

(** [reload_modules] returns [True]; the reload itself is done by the
    minion before the call gets here.  The tables are threaded through to
    show what the call leaves behind. *)
Definition reload_modules (m : minion) : bool * minion := (true, m).

(** ** Tables used in the examples *)

Definition documented (text : string) : callable :=
  {| __doc__ := Some text; __globals__ := None |}.

Definition documented_in (text module_text : string) : callable :=
  {| __doc__ := Some text; __globals__ := Some (Some module_text) |}.

Definition sys_table : table :=
  [("sys.doc", documented "Return the docstrings for all modules");
   ("sysctl.get", documented "Return a single sysctl parameter")].

Definition minion_table : table :=
  [("sys.doc", documented "Return the docstrings for all modules");
   ("sys.list_functions", documented "List the functions for all modules");
   ("user.info", documented "Return user information")].

Definition bare_table : table := [("bare", documented "No module")].

Definition renderers_table : table :=
  [("cheetah", documented "Render a Cheetah template");
   ("jinja", documented "Render a Jinja template")].

Definition returners_table : table :=
  [("sqlite3.get_fun", documented "Return the last called function")].

Definition service_table : table :=
  [("service.running",
    documented_in "Ensure the service is running" "Service state module")].

(** Two functions of the state module [file] defined in different Python
    modules: their [__globals__] carry different module documentation. *)
Definition file_table : table :=
  [("file.managed", documented_in "Manage a file" "File state module");
   ("file.wraps", documented_in "Wrap a function" "Decorator helpers")].

(** The five doc queries, the four list-functions queries and the four
    list-modules queries, as families. *)
Definition doc_queries (strip_text : string → string)
  : list (table → list string → result docs_t) :=
  [doc strip_text; state_doc strip_text; runner_doc strip_text;
   returner_doc strip_text; renderer_doc strip_text].

Definition list_function_queries
  : list (table → list string → result (list string)) :=
  [list_functions; list_state_functions; list_runner_functions;
   list_returner_functions].

Definition list_module_queries
  : list (table → list string → result (list string)) :=
  [list_modules; list_state_modules; list_runners; list_returners].

(** A pattern that [re.compile] rejects once [fnmatch] has translated it. *)
Definition malformed (pat : string) : Prop :=
  raises (fnmatch.compile (fnmatch.translate pat)).

(** The module segment of a qualified name: the text before its first
    dot, when it has a dot. *)
Fixpoint module_segment (name : string) : option string :=
  match name with
  | EmptyString => None
  | String a rest =>
      if Ascii.eqb a "."%char then Some EmptyString
      else String a <$> module_segment rest
  end.

(** The pattern normalised to end in a dot. *)
Definition dotted (pat : string) : string :=
  if endswith pat "."%char then pat else pat +:+ ".".

(** ** What a pattern selects *)

(** What [re] makes of one character of a pattern outside a bracket
    expression. *)
Definition plain_code (c : ascii) : fnmatch.code :=
  if Ascii.eqb c "*" then fnmatch.ANY_STAR
  else if Ascii.eqb c "?" then fnmatch.ANY
  else fnmatch.LITERAL c.

(** What one pattern selects in [list_functions], [list_state_functions]
    and [list_runner_functions]. *)
Definition list_selects (module k : string) : Prop :=
  if contains "*" module then fnmatch.fnmatchcase k module = Ok true
  else startswith k (list_target module) = true.

(** What one pattern selects in [doc] and [runner_doc]. *)
Definition doc_selects (module k : string) : Prop :=
  if contains "*" module then fnmatch.fnmatchcase k module = Ok true
  else k = module ∨ startswith k (doc_target module) = true.

(** What one pattern selects in [renderer_doc]. *)
Definition renderer_selects (module k : string) : Prop :=
  if contains "*" module then fnmatch.fnmatchcase k module = Ok true else True.

(** The key [state_doc] files a module's documentation under: the
    function's own first piece on the glob path, the pattern's first
    piece on the prefix path. *)
Definition state_key (module name : string) : string :=
  if contains "*" module then item0 (split "." name)
  else item0 (split "." module).

(** What one pattern makes [state_doc] record: the selected functions,
    and a module key for every selected function that has
    [__globals__]. *)
Definition state_selects (d : table) (module k : string) : Prop :=
  (k ∈ keys d ∧ doc_selects module k)
  ∨ ∃ fn, fn ∈ d ∧ doc_selects module fn.1 ∧ is_Some (__globals__ fn.2)
          ∧ k = state_key module fn.1.

(** What [_strip_rst] does to one entry of the mapping. *)
Definition strip_value (strip_text : string → string)
    (docstring : option string) : option string :=
  match docstring with
  | Some text => if truthy text then Some (strip_text text) else docstring
  | None => None
  end.

(** A pattern without glob metacharacters. *)
Definition glob_free (pat : string) : bool :=
  negb (contains "*" pat || contains "?" pat || contains "[" pat).

(** Every entry of [docs] is the docstring of the table's function of
    that name. *)
Definition from_table (d : table) (docs : docs_t) : Prop :=
  ∀ k v, docs !! k = Some v → ∃ f, (k, f) ∈ d ∧ v = __doc__ f.

(** Every entry of [docs] under a name with a dot is the docstring of
    the table's function of that name. *)
Definition dotted_from_table (d : table) (docs : docs_t) : Prop :=
  ∀ k v, docs !! k = Some v → contains "." k = true →
         ∃ f, (k, f) ∈ d ∧ v = __doc__ f.

(** ** The error monad and the loops *)

Lemma bind_Ok {A B} (a : A) (k : A → result B) : (Ok a ≫= k) = k a.
Proof. reflexivity. Qed.

Lemma bind_Ok_inv {A B} (r : result A) (k : A → result B) (b : B) :
  r ≫= k = Ok b → ∃ a, r = Ok a ∧ k a = Ok b.
Proof. destruct r as [a|e]; [eauto | discriminate]. Qed.

Lemma bind_raises {A B} (r : result A) (k : A → result B) :
  raises (r ≫= k) → raises r ∨ ∃ a, r = Ok a ∧ raises (k a).
Proof. destruct r as [a|e]; simpl; eauto. Qed.

Lemma for_singleton {A S} (x : A) (s : S) (body : S → A → result S) :
  for_ [x] s body = body s x.
Proof. simpl. by destruct (body s x). Qed.

(** A property kept by every round of a loop holds when the loop ends. *)
Lemma for_invariant {A S} (P : S → Prop) (l : list A) (body : S → A → result S) :
  (∀ s x s', x ∈ l → P s → body s x = Ok s' → P s') →
  ∀ s s', P s → for_ l s body = Ok s' → P s'.
Proof.
  induction l as [|x l IH]; intros Hbody s s' Hs Hrun; simpl in Hrun.
  - by simplify_eq.
  - apply bind_Ok_inv in Hrun as (s1 & Hx & Hrest).
    eapply IH; [|eapply Hbody| exact Hrest]; eauto using list_elem_of_here.
    intros; eapply Hbody; eauto using list_elem_of_further.
Qed.

(** A loop that raises does so in one of its rounds. *)
Lemma for_raises_inv {A S} (l : list A) (body : S → A → result S) (s : S) :
  raises (for_ l s body) → ∃ x s0, x ∈ l ∧ raises (body s0 x).
Proof.
  revert s; induction l as [|x l IH]; intros s Hr; simpl in Hr; [done|].
  apply bind_raises in Hr as [Hr | (s1 & _ & Hr)].
  - exists x, s. split; [apply list_elem_of_here | done].
  - destruct (IH _ Hr) as (y & s0 & Hy & Hr').
    exists y, s0. split; [by apply list_elem_of_further | done].
Qed.

(** A round that raises whatever the state makes the loop raise. *)
Lemma for_raises {A S} (l : list A) (body : S → A → result S) (s : S) (x : A) :
  x ∈ l → (∀ s0, raises (body s0 x)) → raises (for_ l s body).
Proof.
  revert s; induction l as [|y l IH]; intros s Hx Hr; [by inversion Hx|].
  simpl. destruct (body s y) as [s1|e] eqn:Hy; simpl; [|done].
  apply elem_of_cons in Hx as [->|Hx]; [|by apply IH].
  specialize (Hr s). by rewrite Hy in Hr.
Qed.

(** ** Strings *)

Lemma startswith_refl (s : string) : startswith s s = true.
Proof. induction s as [|a s IH]; simpl; [done|]. by rewrite Ascii.eqb_refl. Qed.

Lemma startswith_empty (s : string) : startswith s "" = true.
Proof. by destruct s. Qed.

Lemma String_eqb_refl (s : string) : String.eqb s s = true.
Proof. by apply String.eqb_eq. Qed.

Lemma split_nonempty (sep : ascii) (s : string) : split sep s ≠ [].
Proof.
  induction s as [|a s IH]; simpl; [done|].
  destruct (Ascii.eqb a sep); [done|]. by destruct (split sep s).
Qed.

(** [split] and the module segment agree: a name without a dot gives one
    piece, a name with a dot gives its segment as piece 0. *)
Lemma split_module_segment (name : string) :
  match module_segment name with
  | None => length (split "." name) = 1%nat
  | Some m => (2 ≤ length (split "." name))%nat ∧ item0 (split "." name) = m
  end.
Proof.
  induction name as [|a s IH]; simpl; [done|].
  destruct (Ascii.eqb a ".") eqn:Ha; simpl.
  - pose proof (split_nonempty "." s). destruct (split "." s); [done|].
    simpl; split; [lia | done].
  - destruct (module_segment s) as [m|]; simpl.
    + destruct IH as [Hlen <-]. destruct (split "." s); simpl in *; [lia|done].
    + destruct (split "." s) as [|? [|? ?]]; simpl in *; done.
Qed.

(** ** The glob matcher *)

(** [fnmatch.filter] raises exactly on a malformed pattern, and otherwise
    keeps the items whose name the pattern matches. *)
Lemma fnmatch_filter_spec {A} (name : A → string) (names : list A) (pat : string) :
  match fnmatch.filter name names pat with
  | Ok l =>
      ¬ malformed pat
      ∧ ∀ x, x ∈ l ↔ x ∈ names ∧ fnmatch.fnmatchcase (name x) pat = Ok true
  | Raise _ => malformed pat
  end.
Proof.
  unfold fnmatch.filter, fnmatch.fnmatchcase, malformed.
  destruct (fnmatch.compile (fnmatch.translate pat)) as [re|e]; simpl; [|done].
  split; [tauto|]. intros x.
  rewrite !list_elem_of_In, List.filter_In. split.
  - intros [? ->]; auto.
  - intros [? ?]; split; [done | congruence].
Qed.

Lemma fnmatch_filter_raises {A} (name : A → string) (names : list A) (pat : string) :
  raises (fnmatch.filter name names pat) ↔ malformed pat.
Proof.
  unfold fnmatch.filter, malformed.
  by destruct (fnmatch.compile (fnmatch.translate pat)).
Qed.

Lemma fnmatch_filter_Ok {A} (name : A → string) (names : list A) (pat : string) l :
  fnmatch.filter name names pat = Ok l →
  ∀ x, x ∈ l ↔ x ∈ names ∧ fnmatch.fnmatchcase (name x) pat = Ok true.
Proof.
  intros Hl. pose proof (fnmatch_filter_spec name names pat) as H.
  rewrite Hl in H. apply H.
Qed.

(** The empty pattern matches the empty name only. *)
Lemma fnmatchcase_empty (name : string) :
  fnmatch.fnmatchcase name "" = Ok (negb (truthy name)).
Proof. by destruct name. Qed.

(** Without an opening bracket, a pattern translates character by
    character, and the result compiles. *)
Lemma compile_translate_plain (s : list ascii) :
  forallb (λ c, negb (Ascii.eqb c "[")) s = true →
  fnmatch.compile (fnmatch.translate_from 0 s) = Ok (plain_code <$> s).
Proof.
  induction s as [|c s IH]; simpl; [done|].
  intros [Hc Hs]%andb_prop. apply negb_true_iff in Hc.
  unfold plain_code at 1.
  destruct (Ascii.eqb c "*"); [simpl; by rewrite IH|].
  destruct (Ascii.eqb c "?"); [simpl; by rewrite IH|].
  rewrite Hc. simpl. by rewrite IH.
Qed.

Lemma matches_star_cons (re : list fnmatch.code) (a : ascii) (s : list ascii) :
  fnmatch.matches re s = true →
  fnmatch.matches (fnmatch.ANY_STAR :: re) (a :: s) = true.
Proof.
  intros Hs. simpl. apply orb_true_iff; right.
  destruct s; rewrite Hs; done.
Qed.

(** Such a pattern matches itself. *)
Lemma matches_plain_self (s : list ascii) :
  fnmatch.matches (plain_code <$> s) s = true.
Proof.
  induction s as [|c s IH]; [done|].
  rewrite fmap_cons. unfold plain_code at 1.
  destruct (Ascii.eqb c "*") eqn:Hstar.
  - by apply matches_star_cons.
  - destruct (Ascii.eqb c "?"); cbn [fnmatch.matches]; [done|].
    by rewrite Ascii.eqb_refl.
Qed.

Lemma contains_chars (c : ascii) (s : string) :
  contains c s = false →
  forallb (λ a, negb (Ascii.eqb a c)) (Strings.String.list_ascii_of_string s) = true.
Proof.
  induction s as [|a s IH]; simpl; [done|].
  intros [-> Hs]%orb_false_elim. simpl. auto.
Qed.

Lemma fnmatchcase_self (name : string) :
  contains "[" name = false → fnmatch.fnmatchcase name name = Ok true.
Proof.
  intros Hname%contains_chars. unfold fnmatch.fnmatchcase, fnmatch.translate.
  rewrite compile_translate_plain by done. simpl.
  by rewrite matches_plain_self.
Qed.

(** ** [sorted] *)

Lemma sorted_Sorted (xs : list string) : Sorted String.le (sorted xs).
Proof. apply (Sorted_merge_sort String.le). Qed.

Lemma sorted_Permutation (xs : list string) : sorted xs ≡ₚ xs.
Proof. apply merge_sort_Permutation. Qed.

Lemma elem_of_sorted (xs : list string) (x : string) : x ∈ sorted xs ↔ x ∈ xs.
Proof. by rewrite sorted_Permutation. Qed.

Lemma NoDup_sorted (xs : list string) : NoDup xs → NoDup (sorted xs).
Proof. by rewrite sorted_Permutation. Qed.

Lemma sorted_elements (names : gset string) :
  Sorted String.le (sorted (elements names))
  ∧ NoDup (sorted (elements names))
  ∧ ∀ x, x ∈ sorted (elements names) ↔ x ∈ names.
Proof.
  split_and!; [apply sorted_Sorted | apply NoDup_sorted, NoDup_elements |].
  intros x. by rewrite elem_of_sorted, elem_of_elements.
Qed.

(** ** Loops that collect names *)

(** A loop whose every round adds the names its item selects collects
    the names selected by some item. *)
Lemma for_accumulates {A S} (mem : S → string → Prop) (sel : A → string → Prop)
    (l : list A) (body : S → A → result S) :
  (∀ s x s', x ∈ l → body s x = Ok s' → ∀ k, mem s' k ↔ mem s k ∨ sel x k) →
  ∀ s s', for_ l s body = Ok s' →
  ∀ k, mem s' k ↔ mem s k ∨ ∃ x, x ∈ l ∧ sel x k.
Proof.
  induction l as [|x l IH]; intros Hbody s s' Hrun k; simpl in Hrun.
  - simplify_eq. split; [auto|]. intros [?|(x & Hx & _)]; [done|by inversion Hx].
  - apply bind_Ok_inv in Hrun as (s1 & Hx & Hrest).
    rewrite (IH (λ s x s' Hin, Hbody s x s' (list_elem_of_further _ _ _ Hin))
               _ _ Hrest k).
    rewrite (Hbody _ _ _ (list_elem_of_here _ _) Hx k).
    setoid_rewrite elem_of_cons. naive_solver.
Qed.

Lemma elem_of_foldl_add (l : list string) (acc : gset string) (k : string) :
  k ∈ foldl (λ names func, {[func]} ∪ names) acc l ↔ k ∈ acc ∨ k ∈ l.
Proof.
  revert acc; induction l as [|x l IH]; intros acc; simpl.
  - rewrite elem_of_nil. tauto.
  - rewrite IH, elem_of_cons. set_solver.
Qed.

Lemma elem_of_foldl_add_if (c : string → bool) (l : list string)
    (acc : gset string) (k : string) :
  k ∈ foldl (λ names func, if c func then {[func]} ∪ names else names) acc l
  ↔ k ∈ acc ∨ (k ∈ l ∧ c k = true).
Proof.
  revert acc; induction l as [|x l IH]; intros acc; simpl.
  - rewrite elem_of_nil. tauto.
  - rewrite IH, elem_of_cons. destruct (c x) eqn:Hx; [set_solver|].
    split; [tauto|]. intros [?|[[->|?] ?]]; [auto|congruence|auto].
Qed.

Lemma elem_of_add_module (modules : gset string) (func m : string) :
  m ∈ add_module modules func ↔ m ∈ modules ∨ module_segment func = Some m.
Proof.
  unfold add_module. pose proof (split_module_segment func) as H.
  destruct (module_segment func) as [m'|].
  - destruct H as [Hlen <-].
    destruct (Nat.ltb_spec (length (split "." func)) 2); [lia|]. set_solver.
  - rewrite H. simpl. naive_solver.
Qed.

Lemma elem_of_foldl_add_module (l : list string) (acc : gset string) (m : string) :
  m ∈ foldl add_module acc l
  ↔ m ∈ acc ∨ ∃ func, func ∈ l ∧ module_segment func = Some m.
Proof.
  revert acc; induction l as [|x l IH]; intros acc; simpl.
  - setoid_rewrite elem_of_nil. naive_solver.
  - rewrite IH, elem_of_add_module. setoid_rewrite elem_of_cons. naive_solver.
Qed.

(** ** The list-functions queries *)

Lemma list_functions_args (d : table) (args : list string) :
  args ≠ [] →
  match list_functions d args with
  | Ok l =>
      Sorted String.le l ∧ NoDup l
      ∧ ∀ k, k ∈ l ↔ k ∈ keys d ∧ ∃ module, module ∈ args ∧ list_selects module k
  | Raise _ => ∃ p, p ∈ args ∧ contains "*" p = true ∧ malformed p
  end.
Proof.
  intros Hargs. unfold list_functions. destruct args as [|a args']; [done|].
  set (args := a :: args'). clearbody args.
  match goal with |- context [for_ args ∅ ?b] => set (body := b) end.
  destruct (for_ args ∅ body) as [names|e] eqn:Hrun; simpl.
  - destruct (sorted_elements names) as (Hs & Hn & Hel). split_and!; [done..|].
    intros k. rewrite Hel.
    assert (∀ s module s', module ∈ args → body s module = Ok s' →
            ∀ k, k ∈ s' ↔ k ∈ s ∨ (k ∈ keys d ∧ list_selects module k)) as Hbody.
    { clear. intros s module s' _ Hbody k. unfold body, list_selects in *.
      destruct (contains "*" module) eqn:Hstar.
      - apply bind_Ok_inv in Hbody as (funs & Hfuns & [= <-]).
        rewrite elem_of_foldl_add, (fnmatch_filter_Ok _ _ _ _ Hfuns). done.
      - injection Hbody as <-. rewrite elem_of_foldl_add_if. done. }
    rewrite (for_accumulates (λ (s : gset string) k, k ∈ s) _ _ _ Hbody _ _ Hrun k).
    set_solver.
  - assert (raises (for_ args ∅ body)) as Hr by (by rewrite Hrun).
    apply for_raises_inv in Hr as (p & s0 & Hp & Hr). exists p. split; [done|].
    unfold body in Hr. destruct (contains "*" p); [|done]. split; [done|].
    apply bind_raises in Hr as [Hr|(? & _ & [])].
    by apply fnmatch_filter_raises in Hr.
Qed.

Lemma list_functions_raises (d : table) (args : list string) (p : string) :
  p ∈ args → contains "*" p = true → malformed p →
  raises (list_functions d args).
Proof.
  intros Hp Hstar Hbad. unfold list_functions.
  destruct args as [|a args']; [by inversion Hp|].
  set (args := a :: args') in *. clearbody args.
  match goal with |- context [for_ args ∅ ?b] => set (body := b) end.
  assert (raises (for_ args ∅ body)) as Hr.
  { apply (for_raises _ _ _ p Hp). intros s0. unfold body. rewrite Hstar.
    apply (fnmatch_filter_raises id (keys d)) in Hbad.
    by destruct (fnmatch.filter id (keys d) p). }
  by destruct (for_ args ∅ body).
Qed.

(** [list_returner_functions] never hands a pattern to the matcher. *)
Lemma list_returner_functions_args (d : table) (args : list string) :
  args ≠ [] →
  ∃ l, list_returner_functions d args = Ok l
    ∧ Sorted String.le l ∧ NoDup l
    ∧ ∀ k, k ∈ l ↔ k ∈ keys d
           ∧ ∃ module, module ∈ args ∧ startswith k (list_target module) = true.
Proof.
  intros Hargs. unfold list_returner_functions.
  destruct args as [|a args']; [done|].
  set (args := a :: args'). clearbody args.
  match goal with |- context [for_ args ∅ ?b] => set (body := b) end.
  assert (∀ s module, body s module
            = Ok (foldl (λ names func,
                    if startswith func (list_target module)
                    then {[func]} ∪ names else names) s (keys d))) as Hbody.
  { intros s module. unfold body. by destruct (contains "*" module). }
  destruct (for_ args ∅ body) as [names|e] eqn:Hrun; simpl.
  - exists (sorted (elements names)).
    destruct (sorted_elements names) as (Hs & Hn & Hel). split_and!; [done..|].
    intros k. rewrite Hel.
    assert (∀ s module s', module ∈ args → body s module = Ok s' →
            ∀ k, k ∈ s' ↔ k ∈ s ∨ (k ∈ keys d
                   ∧ startswith k (list_target module) = true)) as Hsel.
    { intros s module s' _ Hs' k'. rewrite Hbody in Hs'. injection Hs' as <-.
      by rewrite elem_of_foldl_add_if. }
    rewrite (for_accumulates (λ (s : gset string) k, k ∈ s) _ _ _ Hsel _ _ Hrun k).
    set_solver.
  - assert (raises (for_ args ∅ body)) as Hr by (by rewrite Hrun).
    apply for_raises_inv in Hr as (p & s0 & _ & Hr). by rewrite Hbody in Hr.
Qed.

Lemma list_functions_noargs (d : table) :
  list_functions d [] = Ok (sorted (keys d))
  ∧ list_returner_functions d [] = Ok (sorted (keys d)).
Proof. done. Qed.

(** ** The list-modules queries *)

Lemma list_modules_args (d : table) (args : list string) :
  args ≠ [] →
  match list_modules d args with
  | Ok l =>
      Sorted String.le l ∧ NoDup l
      ∧ ∀ m, m ∈ l ↔ ∃ name, name ∈ keys d
               ∧ (∃ p, p ∈ args ∧ fnmatch.fnmatchcase name p = Ok true)
               ∧ module_segment name = Some m
  | Raise _ => ∃ p, p ∈ args ∧ malformed p
  end.
Proof.
  intros Hargs. unfold list_modules. destruct args as [|a args']; [done|].
  set (args := a :: args'). clearbody args.
  match goal with |- context [for_ args ∅ ?b] => set (body := b) end.
  destruct (for_ args ∅ body) as [modules|e] eqn:Hrun; simpl.
  - destruct (sorted_elements modules) as (Hs & Hn & Hel). split_and!; [done..|].
    intros m. rewrite Hel.
    assert (∀ s p s', p ∈ args → body s p = Ok s' →
            ∀ m, m ∈ s' ↔ m ∈ s ∨ ∃ name, name ∈ keys d
                   ∧ fnmatch.fnmatchcase name p = Ok true
                   ∧ module_segment name = Some m) as Hbody.
    { clear. intros s p s' _ Hbody m. unfold body in Hbody.
      apply bind_Ok_inv in Hbody as (funs & Hfuns & [= <-]).
      rewrite elem_of_foldl_add_module.
      setoid_rewrite (fnmatch_filter_Ok _ _ _ _ Hfuns). naive_solver. }
    rewrite (for_accumulates (λ (s : gset string) k, k ∈ s) _ _ _ Hbody _ _ Hrun m).
    set_solver.
  - assert (raises (for_ args ∅ body)) as Hr by (by rewrite Hrun).
    apply for_raises_inv in Hr as (p & s0 & Hp & Hr). exists p. split; [done|].
    unfold body in Hr. apply bind_raises in Hr as [Hr|(? & _ & [])].
    by apply fnmatch_filter_raises in Hr.
Qed.

Lemma list_modules_noargs (d : table) :
  ∃ l, list_modules d [] = Ok l
    ∧ Sorted String.le l ∧ NoDup l
    ∧ ∀ m, m ∈ l ↔ ∃ name, name ∈ keys d ∧ module_segment name = Some m.
Proof.
  eexists; split; [reflexivity|].
  destruct (sorted_elements (foldl add_module ∅ (keys d))) as (Hs & Hn & Hel).
  split_and!; [done..|]. intros m.
  rewrite Hel, elem_of_foldl_add_module. set_solver.
Qed.

Lemma list_modules_raises (d : table) (args : list string) (p : string) :
  p ∈ args → malformed p → raises (list_modules d args).
Proof.
  intros Hp Hbad. unfold list_modules.
  destruct args as [|a args']; [by inversion Hp|].
  set (args := a :: args') in *. clearbody args.
  match goal with |- context [for_ args ∅ ?b] => set (body := b) end.
  assert (raises (for_ args ∅ body)) as Hr.
  { apply (for_raises _ _ _ p Hp). intros s0. unfold body.
    apply (fnmatch_filter_raises id (keys d)) in Hbad.
    by destruct (fnmatch.filter id (keys d) p). }
  by destruct (for_ args ∅ body).
Qed.

(** [list_renderers]: the matched names themselves. *)
Lemma list_renderers_spec (d : table) (args : list string) :
  match list_renderers d args with
  | Ok l =>
      Sorted String.le l ∧ NoDup l
      ∧ ∀ k, k ∈ l ↔ k ∈ keys d
             ∧ (args = [] ∨ ∃ p, p ∈ args ∧ fnmatch.fnmatchcase k p = Ok true)
  | Raise _ => ∃ p, p ∈ args ∧ malformed p
  end.
Proof.
  unfold list_renderers. destruct args as [|a args'].
  { match goal with |- context [elements ?s] =>
      destruct (sorted_elements s) as (Hs & Hn & Hel) end.
    split_and!; [done..|]. intros k. rewrite Hel, elem_of_foldl_add. set_solver. }
  set (args := a :: args'). assert (args ≠ []) as Hne by done. clearbody args.
  match goal with |- context [for_ args ∅ ?b] => set (body := b) end.
  destruct (for_ args ∅ body) as [ren|e] eqn:Hrun; simpl.
  - destruct (sorted_elements ren) as (Hs & Hn & Hel). split_and!; [done..|].
    intros k. rewrite Hel.
    assert (∀ s p s', p ∈ args → body s p = Ok s' →
            ∀ k, k ∈ s' ↔ k ∈ s ∨ (k ∈ keys d
                   ∧ fnmatch.fnmatchcase k p = Ok true)) as Hbody.
    { clear. intros s p s' _ Hbody k. unfold body in Hbody.
      apply bind_Ok_inv in Hbody as (funs & Hfuns & [= <-]).
      by rewrite elem_of_foldl_add, (fnmatch_filter_Ok _ _ _ _ Hfuns). }
    rewrite (for_accumulates (λ (s : gset string) k, k ∈ s) _ _ _ Hbody _ _ Hrun k).
    set_solver.
  - assert (raises (for_ args ∅ body)) as Hr by (by rewrite Hrun).
    apply for_raises_inv in Hr as (p & s0 & Hp & Hr). exists p. split; [done|].
    unfold body in Hr. apply bind_raises in Hr as [Hr|(? & _ & [])].
    by apply fnmatch_filter_raises in Hr.
Qed.

Lemma list_renderers_raises (d : table) (args : list string) (p : string) :
  p ∈ args → malformed p → raises (list_renderers d args).
Proof.
  intros Hp Hbad. unfold list_renderers.
  destruct args as [|a args']; [by inversion Hp|].
  set (args := a :: args') in *. clearbody args.
  match goal with |- context [for_ args ∅ ?b] => set (body := b) end.
  assert (raises (for_ args ∅ body)) as Hr.
  { apply (for_raises _ _ _ p Hp). intros s0. unfold body.
    apply (fnmatch_filter_raises id (keys d)) in Hbad.
    by destruct (fnmatch.filter id (keys d) p). }
  by destruct (for_ args ∅ body).
Qed.

(** ** Loops that fill [docs] *)

Lemma elem_of_keys_cons (x : string * callable) (l : table) (k : string) :
  k ∈ keys (x :: l) ↔ k = x.1 ∨ k ∈ keys l.
Proof. unfold keys. by rewrite fmap_cons, elem_of_cons. Qed.

Lemma elem_of_keys_nil (k : string) : k ∈ keys [] ↔ False.
Proof. unfold keys. by rewrite fmap_nil, elem_of_nil. Qed.

Lemma dom_foldl_record (l : table) (acc : docs_t) (k : string) :
  k ∈ dom (foldl (λ docs fn, <[fn.1 := __doc__ fn.2]> docs) acc l)
  ↔ k ∈ dom acc ∨ k ∈ keys l.
Proof.
  revert acc; induction l as [|x l IH]; intros acc; cbn [foldl].
  - rewrite elem_of_keys_nil. tauto.
  - rewrite IH, dom_insert_L, elem_of_keys_cons. set_solver.
Qed.

Lemma dom_foldl_record_if (c : string → bool) (l : table) (acc : docs_t)
    (k : string) :
  k ∈ dom (foldl (λ docs fn,
              if c fn.1 then <[fn.1 := __doc__ fn.2]> docs else docs) acc l)
  ↔ k ∈ dom acc ∨ (k ∈ keys l ∧ c k = true).
Proof.
  revert acc; induction l as [|x l IH]; intros acc; cbn [foldl].
  - rewrite elem_of_keys_nil. tauto.
  - rewrite IH, elem_of_keys_cons.
    destruct (c x.1) eqn:Hx; [rewrite dom_insert_L; set_solver|].
    split; [tauto|]. intros [?|[[->|?] ?]]; [auto|congruence|auto].
Qed.

Lemma dom_record_state_once (state : string) (f : callable) (docs : docs_t)
    (k : string) :
  k ∈ dom (record_state_once state f docs)
  ↔ k ∈ dom docs ∨ (k = state ∧ is_Some (__globals__ f)).
Proof.
  unfold record_state_once. destruct (docs !! state) as [v|] eqn:Hst.
  - split; [auto|]. intros [?|[-> _]]; [done|]. by apply elem_of_dom.
  - destruct (__globals__ f) as [md|].
    + rewrite dom_insert_L. set_solver.
    + split; [auto|]. by intros [?|[_ [? [=]]]].
Qed.

Lemma dom_record_state (state : string) (f : callable) (docs : docs_t)
    (k : string) :
  k ∈ dom (record_state state f docs)
  ↔ k ∈ dom docs ∨ (k = state ∧ is_Some (__globals__ f)).
Proof.
  unfold record_state. destruct (__globals__ f) as [md|].
  - rewrite dom_insert_L. set_solver.
  - split; [auto|]. by intros [?|[_ [? [=]]]].
Qed.

(** The loops of [state_doc]: [record] is [record_state_once] or
    [record_state], [state_of] names the key the module documentation
    goes under. *)
Lemma dom_foldl_record_states
    (record : string → callable → docs_t → docs_t) (state_of : string → string)
    (c : string → bool) (l : table) (acc : docs_t) (k : string) :
  (∀ state f docs k, k ∈ dom (record state f docs)
     ↔ k ∈ dom docs ∨ (k = state ∧ is_Some (__globals__ f))) →
  k ∈ dom (foldl (λ docs fn,
              if c fn.1
              then <[fn.1 := __doc__ fn.2]> (record (state_of fn.1) fn.2 docs)
              else docs) acc l)
  ↔ k ∈ dom acc
    ∨ (k ∈ keys l ∧ c k = true)
    ∨ ∃ fn, fn ∈ l ∧ c fn.1 = true ∧ is_Some (__globals__ fn.2)
            ∧ k = state_of fn.1.
Proof.
  intros Hrecord. revert acc; induction l as [|x l IH]; intros acc; cbn [foldl].
  - rewrite elem_of_keys_nil. split; [auto|].
    intros [?|[[[] _]|(fn & Hfn & _)]]; [done|by inversion Hfn].
  - rewrite IH, elem_of_keys_cons. clear IH. destruct (c x.1) eqn:Hx.
    + rewrite dom_insert_L, elem_of_union, elem_of_singleton, Hrecord. split.
      * intros [[->|[?|[-> ?]]]|[[? ?]|(fn & ? & ? & ? & ?)]]; eauto 8.
        -- right; right. exists x. split_and!; [apply list_elem_of_here|done..].
        -- right; right. exists fn.
           split_and!; [by apply list_elem_of_further|done..].
      * intros [?|[[[->|?] ?]|(fn & [->|?]%elem_of_cons & ? & ? & ->)]]; eauto 8.
    + split.
      * intros [?|[[? ?]|(fn & ? & ? & ? & ?)]]; eauto 8.
        right; right. exists fn.
        split_and!; [by apply list_elem_of_further|done..].
      * intros [?|[[[->|?] ?]|(fn & [->|?]%elem_of_cons & ? & ? & ->)]];
          eauto 8; congruence.
Qed.

Lemma dom_strip_rst (strip_text : string → string) (docs : docs_t) :
  dom (_strip_rst strip_text docs) = dom docs.
Proof. unfold _strip_rst. apply dom_fmap_L. Qed.

(** ** The doc queries *)

Lemma doc_target_star (module : string) :
  contains "*" module = true → doc_target module = module.
Proof. unfold doc_target. by intros ->. Qed.

Lemma doc_target_plain (module : string) :
  contains "*" module = false → module ≠ "" → doc_target module = dotted module.
Proof. unfold doc_target, dotted. intros ->. by destruct module. Qed.

Lemma list_target_plain (module : string) :
  contains "*" module = false → module ≠ "" → list_target module = dotted module.
Proof. unfold list_target, dotted. intros ->. by destruct module. Qed.

Lemma eqb_or_startswith (k module target : string) :
  String.eqb k module || startswith k target = true
  ↔ k = module ∨ startswith k target = true.
Proof. by rewrite orb_true_iff, String.eqb_eq. Qed.

Lemma elem_of_keys (d : table) (fn : string * callable) : fn ∈ d → fn.1 ∈ keys d.
Proof. intros. by apply list_elem_of_fmap_2. Qed.

Lemma elem_of_keys_inv (d : table) (k : string) :
  k ∈ keys d → ∃ fn, fn ∈ d ∧ fn.1 = k.
Proof. intros (fn & -> & ?)%list_elem_of_fmap. eauto. Qed.

Lemma doc_spec (strip_text : string → string) (d : table) (args : list string) :
  match doc strip_text d args with
  | Ok docs =>
      ∀ k, k ∈ dom docs
           ↔ k ∈ keys d
             ∧ (args = [] ∨ ∃ module, module ∈ args ∧ doc_selects module k)
  | Raise _ => ∃ p, p ∈ args ∧ contains "*" p = true ∧ malformed p
  end.
Proof.
  unfold doc. destruct args as [|a args'].
  { intros k. rewrite dom_strip_rst, dom_foldl_record. set_solver. }
  set (args := a :: args'). assert (args ≠ []) as Hne by done. clearbody args.
  match goal with |- context [for_ args ∅ ?b] => set (body := b) end.
  destruct (for_ args ∅ body) as [docs|e] eqn:Hrun; simpl.
  - intros k. rewrite dom_strip_rst.
    assert (∀ s module s', module ∈ args → body s module = Ok s' →
            ∀ k, k ∈ dom s' ↔ k ∈ dom s ∨ (k ∈ keys d ∧ doc_selects module k))
      as Hbody.
    { clear. intros s module s' _ Hbody k. unfold body, doc_selects in *.
      destruct (contains "*" module) eqn:Hstar.
      - rewrite (doc_target_star _ Hstar) in Hbody.
        apply bind_Ok_inv in Hbody as (funs & Hfuns & [= <-]).
        rewrite dom_foldl_record. split.
        + intros [?|(fn & Hfn & <-)%elem_of_keys_inv]; [auto|].
          apply (fnmatch_filter_Ok _ _ _ _ Hfuns) in Hfn as [? ?].
          right. split; [by apply elem_of_keys | done].
        + intros [?|[(fn & Hfn & <-)%elem_of_keys_inv ?]]; [auto|].
          right. apply elem_of_keys, (fnmatch_filter_Ok _ _ _ _ Hfuns). done.
      - injection Hbody as <-.
        rewrite (dom_foldl_record_if
                   (λ k, String.eqb k module || startswith k (doc_target module))).
        by rewrite eqb_or_startswith. }
    rewrite (for_accumulates (λ (s : docs_t) k, k ∈ dom s) _ _ _ Hbody _ _ Hrun k).
    set_solver.
  - assert (raises (for_ args ∅ body)) as Hr by (by rewrite Hrun).
    apply for_raises_inv in Hr as (p & s0 & Hp & Hr). exists p. split; [done|].
    unfold body in Hr. destruct (contains "*" p) eqn:Hstar; [|done].
    split; [done|]. rewrite (doc_target_star _ Hstar) in Hr.
    apply bind_raises in Hr as [Hr|(? & _ & [])].
    by apply fnmatch_filter_raises in Hr.
Qed.

Lemma doc_raises (strip_text : string → string) (d : table)
    (args : list string) (p : string) :
  p ∈ args → contains "*" p = true → malformed p →
  raises (doc strip_text d args).
Proof.
  intros Hp Hstar Hbad. unfold doc.
  destruct args as [|a args']; [by inversion Hp|].
  set (args := a :: args') in *. clearbody args.
  match goal with |- context [for_ args ∅ ?b] => set (body := b) end.
  assert (raises (for_ args ∅ body)) as Hr.
  { apply (for_raises _ _ _ p Hp). intros s0. unfold body.
    rewrite Hstar, (doc_target_star _ Hstar).
    apply (fnmatch_filter_raises fst d) in Hbad.
    by destruct (fnmatch.filter fst d p). }
  by destruct (for_ args ∅ body).
Qed.

(** [runner_doc] is [doc] over the runners' table. *)
Lemma runner_doc_doc (strip_text : string → string) :
  runner_doc strip_text = doc strip_text.
Proof. reflexivity. Qed.

(** [returner_doc] never hands a pattern to the matcher. *)
Lemma returner_doc_spec (strip_text : string → string) (d : table)
    (args : list string) :
  ∃ docs, returner_doc strip_text d args = Ok docs
    ∧ ∀ k, k ∈ dom docs
           ↔ k ∈ keys d
             ∧ (args = [] ∨ ∃ module, module ∈ args
                  ∧ (k = module ∨ startswith k (doc_target module) = true)).
Proof.
  unfold returner_doc. destruct args as [|a args'].
  { eexists; split; [done|]. intros k.
    rewrite dom_strip_rst, dom_foldl_record. set_solver. }
  set (args := a :: args'). assert (args ≠ []) as Hne by done. clearbody args.
  match goal with |- context [for_ args ∅ ?b] => set (body := b) end.
  assert (∀ s module, body s module
            = Ok (foldl (λ docs fn,
                    if String.eqb fn.1 module || startswith fn.1 (doc_target module)
                    then <[fn.1 := __doc__ fn.2]> docs else docs) s d)) as Hbody.
  { intros s module. unfold body. by destruct (contains "*" module). }
  destruct (for_ args ∅ body) as [docs|e] eqn:Hrun; simpl.
  - eexists; split; [done|]. intros k. rewrite dom_strip_rst.
    assert (∀ s module s', module ∈ args → body s module = Ok s' →
            ∀ k, k ∈ dom s' ↔ k ∈ dom s ∨ (k ∈ keys d
                   ∧ (k = module ∨ startswith k (doc_target module) = true)))
      as Hsel.
    { intros s module s' _ Hs' k'. rewrite Hbody in Hs'. injection Hs' as <-.
      rewrite (dom_foldl_record_if
                 (λ k, String.eqb k module || startswith k (doc_target module))).
      by rewrite eqb_or_startswith. }
    rewrite (for_accumulates (λ (s : docs_t) k, k ∈ dom s) _ _ _ Hsel _ _ Hrun k).
    set_solver.
  - assert (raises (for_ args ∅ body)) as Hr by (by rewrite Hrun).
    apply for_raises_inv in Hr as (p & s0 & _ & Hr). by rewrite Hbody in Hr.
Qed.

Lemma renderer_doc_spec (strip_text : string → string) (d : table)
    (args : list string) :
  match renderer_doc strip_text d args with
  | Ok docs =>
      ∀ k, k ∈ dom docs
           ↔ k ∈ keys d
             ∧ (args = [] ∨ ∃ module, module ∈ args ∧ renderer_selects module k)
  | Raise _ => ∃ p, p ∈ args ∧ contains "*" p = true ∧ malformed p
  end.
Proof.
  unfold renderer_doc. destruct args as [|a args'].
  { intros k. rewrite dom_strip_rst, dom_foldl_record. set_solver. }
  set (args := a :: args'). assert (args ≠ []) as Hne by done. clearbody args.
  match goal with |- context [for_ args ∅ ?b] => set (body := b) end.
  destruct (for_ args ∅ body) as [docs|e] eqn:Hrun; simpl.
  - intros k. rewrite dom_strip_rst.
    assert (∀ s module s', module ∈ args → body s module = Ok s' →
            ∀ k, k ∈ dom s' ↔ k ∈ dom s
                   ∨ (k ∈ keys d ∧ renderer_selects module k)) as Hbody.
    { clear. intros s module s' _ Hbody k. unfold body, renderer_selects in *.
      destruct (contains "*" module) eqn:Hstar.
      - apply bind_Ok_inv in Hbody as (funs & Hfuns & [= <-]).
        rewrite dom_foldl_record. split.
        + intros [?|(fn & Hfn & <-)%elem_of_keys_inv]; [auto|].
          apply (fnmatch_filter_Ok _ _ _ _ Hfuns) in Hfn as [? ?].
          right. split; [by apply elem_of_keys | done].
        + intros [?|[(fn & Hfn & <-)%elem_of_keys_inv ?]]; [auto|].
          right. apply elem_of_keys, (fnmatch_filter_Ok _ _ _ _ Hfuns). done.
      - injection Hbody as <-. rewrite dom_foldl_record. tauto. }
    rewrite (for_accumulates (λ (s : docs_t) k, k ∈ dom s) _ _ _ Hbody _ _ Hrun k).
    set_solver.
  - assert (raises (for_ args ∅ body)) as Hr by (by rewrite Hrun).
    apply for_raises_inv in Hr as (p & s0 & Hp & Hr). exists p. split; [done|].
    unfold body in Hr. destruct (contains "*" p) eqn:Hstar; [|done].
    split; [done|].
    apply bind_raises in Hr as [Hr|(? & _ & [])].
    by apply fnmatch_filter_raises in Hr.
Qed.

Lemma renderer_doc_raises (strip_text : string → string) (d : table)
    (args : list string) (p : string) :
  p ∈ args → contains "*" p = true → malformed p →
  raises (renderer_doc strip_text d args).
Proof.
  intros Hp Hstar Hbad. unfold renderer_doc.
  destruct args as [|a args']; [by inversion Hp|].
  set (args := a :: args') in *. clearbody args.
  match goal with |- context [for_ args ∅ ?b] => set (body := b) end.
  assert (raises (for_ args ∅ body)) as Hr.
  { apply (for_raises _ _ _ p Hp). intros s0. unfold body. rewrite Hstar.
    apply (fnmatch_filter_raises fst d) in Hbad.
    by destruct (fnmatch.filter fst d p). }
  by destruct (for_ args ∅ body).
Qed.

Lemma state_doc_noargs (strip_text : string → string) (d : table) :
  ∃ docs, state_doc strip_text d [] = Ok docs
    ∧ ∀ k, k ∈ dom docs
           ↔ k ∈ keys d
             ∨ ∃ fn, fn ∈ d ∧ is_Some (__globals__ fn.2)
                     ∧ k = item0 (split "." fn.1).
Proof.
  eexists; split; [reflexivity|]. intros k. rewrite dom_strip_rst.
  pose proof (dom_foldl_record_states record_state_once
                (λ name, item0 (split "." name)) (λ _, true) d ∅ k
                dom_record_state_once) as H.
  etrans; [exact H|]. rewrite dom_empty_L. split.
  - intros [[]%not_elem_of_empty|[[? _]|(fn & ? & _ & ? & ->)]]; eauto.
  - intros [?|(fn & ? & ? & ->)]; eauto 8.
Qed.

Lemma state_doc_args (strip_text : string → string) (d : table)
    (args : list string) :
  args ≠ [] →
  match state_doc strip_text d args with
  | Ok docs =>
      ∀ k, k ∈ dom docs ↔ ∃ module, module ∈ args ∧ state_selects d module k
  | Raise _ => ∃ p, p ∈ args ∧ contains "*" p = true ∧ malformed p
  end.
Proof.
  intros Hne. unfold state_doc. destruct args as [|a args']; [done|].
  set (args := a :: args'). clearbody args.
  match goal with |- context [for_ args ∅ ?b] => set (body := b) end.
  destruct (for_ args ∅ body) as [docs|e] eqn:Hrun; simpl.
  - intros k. rewrite dom_strip_rst.
    assert (∀ s module s', module ∈ args → body s module = Ok s' →
            ∀ k, k ∈ dom s' ↔ k ∈ dom s ∨ state_selects d module k) as Hbody.
    { clear. intros s module s' _ Hbody k.
      unfold body, state_selects, state_key, doc_selects in *.
      destruct (contains "*" module) eqn:Hstar.
      - rewrite (doc_target_star _ Hstar) in Hbody.
        apply bind_Ok_inv in Hbody as (funs & Hfuns & [= <-]).
        pose proof (dom_foldl_record_states record_state
                      (λ name, item0 (split "." name)) (λ _, true) funs s k
                      dom_record_state) as H.
        etrans; [exact H|]. clear H.
        pose proof (fnmatch_filter_Ok _ _ _ _ Hfuns) as Hin. split.
        + intros [?|[[(fn & Hfn & <-)%elem_of_keys_inv _]
                    |(fn & Hfn & _ & ? & ->)]]; [by left|..];
            apply Hin in Hfn as [? ?]; right.
          * left. split; [by apply elem_of_keys|done].
          * right. eauto 8.
        + intros [?|[[(fn & Hfn & <-)%elem_of_keys_inv ?]
                    |(fn & Hfn & ? & ? & ->)]]; [by left|..]; right.
          * left. split; [|done]. apply elem_of_keys, Hin. done.
          * right. exists fn. split_and!; [by apply Hin|done..].
      - injection Hbody as <-.
        pose proof (dom_foldl_record_states record_state_once
                      (λ _, item0 (split "." module))
                      (λ k, String.eqb k module
                            || startswith k (doc_target module)) d s k
                      dom_record_state_once) as H.
        etrans; [exact H|]. clear H.
        setoid_rewrite eqb_or_startswith. naive_solver. }
    rewrite (for_accumulates (λ (s : docs_t) k, k ∈ dom s) _ _ _ Hbody _ _ Hrun k).
    rewrite dom_empty_L. set_solver.
  - assert (raises (for_ args ∅ body)) as Hr by (by rewrite Hrun).
    apply for_raises_inv in Hr as (p & s0 & Hp & Hr). exists p. split; [done|].
    unfold body in Hr. destruct (contains "*" p) eqn:Hstar; [|done].
    split; [done|]. rewrite (doc_target_star _ Hstar) in Hr.
    apply bind_raises in Hr as [Hr|(? & _ & [])].
    by apply fnmatch_filter_raises in Hr.
Qed.

Lemma state_doc_raises (strip_text : string → string) (d : table)
    (args : list string) (p : string) :
  p ∈ args → contains "*" p = true → malformed p →
  raises (state_doc strip_text d args).
Proof.
  intros Hp Hstar Hbad. unfold state_doc.
  destruct args as [|a args']; [by inversion Hp|].
  set (args := a :: args') in *. clearbody args.
  match goal with |- context [for_ args ∅ ?b] => set (body := b) end.
  assert (raises (for_ args ∅ body)) as Hr.
  { apply (for_raises _ _ _ p Hp). intros s0. unfold body.
    rewrite Hstar, (doc_target_star _ Hstar).
    apply (fnmatch_filter_raises fst d) in Hbad.
    by destruct (fnmatch.filter fst d p). }
  by destruct (for_ args ∅ body).
Qed.

(** ** C1: a plain pattern in the doc queries *)

Lemma dotted_sys : dotted "sys" = "sys." ∧ dotted "sys." = "sys.".
Proof. done. Qed.

(** [doc], [runner_doc] and [returner_doc], given one non-empty pattern
    without [*], record exactly the names that equal the pattern or start
    with the pattern normalised to end in a dot. *)
Lemma doc_plain_pattern (strip_text : string → string) (d : table) (p : string) :
  p ≠ "" → contains "*" p = false →
  Forall (λ q : table → list string → result docs_t,
            ∃ docs, q d [p] = Ok docs
              ∧ ∀ k, k ∈ dom docs
                     ↔ k ∈ keys d ∧ (k = p ∨ startswith k (dotted p) = true))
    [doc strip_text; runner_doc strip_text; returner_doc strip_text].
Proof.
  intros Hp Hstar.
  assert (∃ docs, doc strip_text d [p] = Ok docs
            ∧ ∀ k, k ∈ dom docs
                   ↔ k ∈ keys d ∧ (k = p ∨ startswith k (dotted p) = true))
    as Hdoc.
  { pose proof (doc_spec strip_text d [p]) as H.
    destruct (doc strip_text d [p]) as [docs|e].
    - exists docs. split; [done|]. intros k. rewrite H.
      setoid_rewrite list_elem_of_singleton.
      rewrite <- (doc_target_plain p) by done. split.
      + intros [? [[=]|(? & -> & Hsel)]]. unfold doc_selects in Hsel.
        by rewrite Hstar in Hsel.
      + intros [? Hsel]. split; [done|]. right. exists p. split; [done|].
        unfold doc_selects. by rewrite Hstar.
    - destruct H as (p' & ->%list_elem_of_singleton & ? & _). congruence. }
  repeat constructor; [exact Hdoc | exact Hdoc |].
  destruct (returner_doc_spec strip_text d [p]) as (docs & Hrun & H).
  exists docs. split; [done|]. intros k. rewrite H.
  setoid_rewrite list_elem_of_singleton.
  rewrite <- (doc_target_plain p) by done. naive_solver.
Qed.

(** The same for [state_doc], which adds the key of the module. *)
Lemma state_doc_plain_pattern (strip_text : string → string) (d : table)
    (p : string) :
  p ≠ "" → contains "*" p = false →
  ∃ docs, state_doc strip_text d [p] = Ok docs
    ∧ ∀ k, k ∈ dom docs
           ↔ (k ∈ keys d ∧ (k = p ∨ startswith k (dotted p) = true))
             ∨ (k = item0 (split "." p)
                ∧ ∃ fn, fn ∈ d ∧ is_Some (__globals__ fn.2)
                        ∧ (fn.1 = p ∨ startswith fn.1 (dotted p) = true)).
Proof.
  intros Hp Hstar.
  pose proof (state_doc_args strip_text d [p] ltac:(done)) as H.
  destruct (state_doc strip_text d [p]) as [docs|e].
  - exists docs. split; [done|]. intros k. rewrite H.
    unfold state_selects, state_key, doc_selects.
    setoid_rewrite list_elem_of_singleton.
    rewrite <- (doc_target_plain p) by done. split.
    + intros (? & -> & Hsel). rewrite Hstar in Hsel.
      destruct Hsel as [?|(fn & ? & ? & ? & ->)]; [by left|]. right. eauto 8.
    + intros Hsel. exists p. split; [done|]. rewrite Hstar.
      destruct Hsel as [?|(-> & fn & ? & ? & ?)]; [by left|]. right. eauto 8.
  - destruct H as (p' & ->%list_elem_of_singleton & ? & _). congruence.
Qed.

(** [renderer_doc] does not look at a pattern without [*]. *)
Lemma renderer_doc_plain_pattern (strip_text : string → string) (d : table)
    (p : string) :
  contains "*" p = false →
  ∃ docs, renderer_doc strip_text d [p] = Ok docs
    ∧ ∀ k, k ∈ dom docs ↔ k ∈ keys d.
Proof.
  intros Hstar. pose proof (renderer_doc_spec strip_text d [p]) as H.
  destruct (renderer_doc strip_text d [p]) as [docs|e].
  - exists docs. split; [done|]. intros k. rewrite H.
    unfold renderer_selects. setoid_rewrite list_elem_of_singleton.
    split; [tauto|]. intros ?. split; [done|]. right. exists p.
    by rewrite Hstar.
  - destruct H as (p' & ->%list_elem_of_singleton & ? & _). congruence.
Qed.

(** Prefix safety of [doc]: [sys] selects [sys.doc] and not
    [sysctl.get]. *)
Lemma doc_prefix_safety (strip_text : string → string) :
  ∃ docs, doc strip_text sys_table ["sys"] = Ok docs
    ∧ dom docs = {["sys.doc"]}.
Proof. eexists. split; [reflexivity|]. rewrite dom_strip_rst. by vm_compute. Qed.

(** C1 (code_bug): a doc query given a non-empty pattern without glob
    metacharacters should return exactly the names that equal the pattern
    or start with the pattern and a dot.  [renderer_doc] does not: asked
    for [cheetah], it also returns [jinja], which neither equals the
    pattern nor starts with [cheetah.]. *)
Theorem C1_renderer_doc_plain_pattern_returns_every_renderer :
  ∀ strip_text : string → string,
    ∃ docs, renderer_doc strip_text renderers_table ["cheetah"] = Ok docs
      ∧ dom docs = {["cheetah"; "jinja"]}
      ∧ "jinja" ≠ "cheetah"
      ∧ startswith "jinja" (dotted "cheetah") = false.
Proof.
  intros strip_text. eexists. split; [reflexivity|].
  rewrite dom_strip_rst. split_and!; [by vm_compute|done|done].
Qed.

(** ** C2: querying with a name of the table *)

Lemma plain_not_malformed (p : string) : contains "[" p = false → ¬ malformed p.
Proof.
  intros Hp%contains_chars. unfold malformed, fnmatch.translate.
  rewrite compile_translate_plain by done. by intros [].
Qed.

(** A name selects itself in [doc], unless it holds both a [*] and an
    opening bracket. *)
Lemma doc_selects_self (k : string) :
  contains "*" k = false ∨ contains "[" k = false → doc_selects k k.
Proof.
  intros Hk. unfold doc_selects. destruct (contains "*" k) eqn:Hstar; [|by left].
  destruct Hk as [[=]|Hk]. by apply fnmatchcase_self.
Qed.

(** C2 (amended): for every name [k] of a table that does not hold both
    a [*] and an opening bracket, each of the five doc queries, asked for
    the single pattern [k], returns a mapping that has the key [k].  (The
    list-functions queries have no equality test and are left out.) *)
Theorem C2_doc_queries_exact_match (strip_text : string → string) (d : table)
    (k : string) :
  k ∈ keys d →
  contains "*" k = false ∨ contains "[" k = false →
  Forall (λ q : table → list string → result docs_t,
            ∃ docs, q d [k] = Ok docs ∧ k ∈ dom docs)
    (doc_queries strip_text).
Proof.
  intros Hk Hplain.
  assert (∀ p, p ∈ [k] → contains "*" p = true → ¬ malformed p) as Hgood.
  { intros p ->%list_elem_of_singleton Hstar.
    destruct Hplain as [?|?]; [congruence | by apply plain_not_malformed]. }
  assert (k ∈ [k]) as Hin by apply list_elem_of_here.
  assert (∃ docs, doc strip_text d [k] = Ok docs ∧ k ∈ dom docs) as Hdoc.
  { pose proof (doc_spec strip_text d [k]) as H.
    destruct (doc strip_text d [k]) as [docs|e].
    - exists docs. split; [done|]. apply H. split; [done|]. right.
      exists k. split; [done | by apply doc_selects_self].
    - destruct H as (p & Hp & Hstar & Hbad). by destruct (Hgood p). }
  unfold doc_queries. repeat constructor; [exact Hdoc | | exact Hdoc | |].
  - pose proof (state_doc_args strip_text d [k] ltac:(done)) as H.
    destruct (state_doc strip_text d [k]) as [docs|e].
    + exists docs. split; [done|]. apply H. exists k. split; [done|].
      left. split; [done | by apply doc_selects_self].
    + destruct H as (p & Hp & Hstar & Hbad). by destruct (Hgood p).
  - destruct (returner_doc_spec strip_text d [k]) as (docs & Hrun & H).
    exists docs. split; [done|]. apply H. split; [done|]. right.
    exists k. split; [done | by left].
  - pose proof (renderer_doc_spec strip_text d [k]) as H.
    destruct (renderer_doc strip_text d [k]) as [docs|e].
    + exists docs. split; [done|]. apply H. split; [done|]. right.
      exists k. split; [done|]. unfold renderer_selects.
      pose proof (doc_selects_self k Hplain) as Hself. unfold doc_selects in Hself.
      by destruct (contains "*" k).
    + destruct H as (p & Hp & Hstar & Hbad). by destruct (Hgood p).
Qed.

Lemma C2_doc_queries_exact_match_witness :
  "sys.doc" ∈ keys sys_table
  ∧ (contains "*" "sys.doc" = false ∨ contains "[" "sys.doc" = false)
  ∧ Forall (λ q : table → list string → result docs_t,
              ∃ docs, q sys_table ["sys.doc"] = Ok docs ∧ "sys.doc" ∈ dom docs)
      (doc_queries id).
Proof.
  assert ("sys.doc" ∈ keys sys_table) as Hin by (vm_compute; constructor).
  assert (contains "*" "sys.doc" = false ∨ contains "[" "sys.doc" = false)
    as Hplain by (left; reflexivity).
  split_and!; [exact Hin | exact Hplain |].
  exact (C2_doc_queries_exact_match id sys_table "sys.doc" Hin Hplain).
Defined.

(** C2 as stated fails for the list queries: [sys.doc] is a name of the
    table, and [list_functions] asked for [sys.doc] returns nothing. *)
Lemma C2_list_functions_misses_exact_name :
  "sys.doc" ∈ keys sys_table
  ∧ list_functions sys_table ["sys.doc"] = Ok [].
Proof. split; [vm_compute; constructor | reflexivity]. Qed.

(** ** C3: a plain pattern in the list-functions queries *)

(** C3 (amended): for every non-empty pattern without [*], each of the
    four list-functions queries returns exactly the names of the table
    that start with the pattern normalised to end in a dot: the dot is
    inserted before the prefix test. *)
Theorem C3_list_functions_dotted_prefix (d : table) (p : string) :
  p ≠ "" → contains "*" p = false →
  Forall (λ q : table → list string → result (list string),
            ∃ l, q d [p] = Ok l
              ∧ ∀ k, k ∈ l ↔ k ∈ keys d ∧ startswith k (dotted p) = true)
    list_function_queries.
Proof.
  intros Hp Hstar.
  assert (∃ l, list_functions d [p] = Ok l
            ∧ ∀ k, k ∈ l ↔ k ∈ keys d ∧ startswith k (dotted p) = true) as Hlist.
  { pose proof (list_functions_args d [p] ltac:(done)) as H.
    destruct (list_functions d [p]) as [l|e].
    - exists l. split; [done|]. intros k. destruct H as (_ & _ & ->).
      setoid_rewrite list_elem_of_singleton.
      rewrite <- (list_target_plain p) by done. split.
      + intros [? (? & -> & Hsel)]. unfold list_selects in Hsel.
        by rewrite Hstar in Hsel.
      + intros [? Hsel]. split; [done|]. exists p. split; [done|].
        unfold list_selects. by rewrite Hstar.
    - destruct H as (p' & ->%list_elem_of_singleton & ? & _). congruence. }
  unfold list_function_queries.
  repeat constructor; [exact Hlist | exact Hlist | exact Hlist |].
  destruct (list_returner_functions_args d [p] ltac:(done))
    as (l & Hrun & _ & _ & H).
  exists l. split; [done|]. intros k. rewrite H.
  setoid_rewrite list_elem_of_singleton.
  rewrite <- (list_target_plain p) by done. naive_solver.
Qed.

Lemma C3_list_functions_dotted_prefix_witness :
  "sys" ≠ "" ∧ contains "*" "sys" = false
  ∧ Forall (λ q : table → list string → result (list string),
              ∃ l, q sys_table ["sys"] = Ok l
                ∧ ∀ k, k ∈ l
                       ↔ k ∈ keys sys_table ∧ startswith k (dotted "sys") = true)
      list_function_queries.
Proof.
  assert ("sys" ≠ "") as Hne by discriminate.
  assert (contains "*" "sys" = false) as Hstar by reflexivity.
  split_and!; [exact Hne | exact Hstar |].
  exact (C3_list_functions_dotted_prefix sys_table "sys" Hne Hstar).
Defined.

(** C3 as stated fails: [sysctl.get] starts with the raw pattern [sys],
    and [list_functions] asked for [sys] does not return it. *)
Lemma C3_list_functions_raw_prefix_not_selected :
  "sysctl.get" ∈ keys sys_table
  ∧ startswith "sysctl.get" "sys" = true
  ∧ list_functions sys_table ["sys"] = Ok ["sys.doc"].
Proof. split_and!; [vm_compute; repeat constructor | reflexivity | reflexivity]. Qed.

(** ** C4: a glob pattern in the doc queries *)

(** [doc], [runner_doc] and [renderer_doc], given one pattern with a
    [*], record exactly the names the glob matches, and raise only if
    the pattern is malformed. *)
Lemma doc_glob_pattern (strip_text : string → string) (d : table) (p : string) :
  contains "*" p = true →
  Forall (λ q : table → list string → result docs_t,
            match q d [p] with
            | Ok docs =>
                ∀ k, k ∈ dom docs
                     ↔ k ∈ keys d ∧ fnmatch.fnmatchcase k p = Ok true
            | Raise _ => malformed p
            end)
    [doc strip_text; runner_doc strip_text; renderer_doc strip_text].
Proof.
  intros Hstar.
  assert (match doc strip_text d [p] with
          | Ok docs =>
              ∀ k, k ∈ dom docs ↔ k ∈ keys d ∧ fnmatch.fnmatchcase k p = Ok true
          | Raise _ => malformed p
          end) as Hdoc.
  { pose proof (doc_spec strip_text d [p]) as H.
    destruct (doc strip_text d [p]) as [docs|e].
    - intros k. rewrite H. setoid_rewrite list_elem_of_singleton. split.
      + intros [? [[=]|(? & -> & Hsel)]]. unfold doc_selects in Hsel.
        by rewrite Hstar in Hsel.
      + intros [? Hsel]. split; [done|]. right. exists p. split; [done|].
        unfold doc_selects. by rewrite Hstar.
    - destruct H as (p' & Hp' & _ & Hbad).
      apply list_elem_of_singleton in Hp' as ->. exact Hbad. }
  repeat constructor; [exact Hdoc | exact Hdoc |].
  pose proof (renderer_doc_spec strip_text d [p]) as H.
  destruct (renderer_doc strip_text d [p]) as [docs|e].
  - intros k. rewrite H. setoid_rewrite list_elem_of_singleton. split.
    + intros [? [[=]|(? & -> & Hsel)]]. unfold renderer_selects in Hsel.
      by rewrite Hstar in Hsel.
    + intros [? Hsel]. split; [done|]. right. exists p. split; [done|].
      unfold renderer_selects. by rewrite Hstar.
  - destruct H as (p' & Hp' & _ & Hbad).
      apply list_elem_of_singleton in Hp' as ->. exact Hbad.
Qed.

(** [returner_doc] runs the prefix test on every pattern: the names it
    records equal the pattern or start with it, [*] included. *)
Lemma returner_doc_glob_pattern (strip_text : string → string) (d : table)
    (p : string) :
  contains "*" p = true →
  ∃ docs, returner_doc strip_text d [p] = Ok docs
    ∧ ∀ k, k ∈ dom docs ↔ k ∈ keys d ∧ (k = p ∨ startswith k p = true).
Proof.
  intros Hstar. destruct (returner_doc_spec strip_text d [p]) as (docs & Hrun & H).
  exists docs. split; [done|]. intros k. rewrite H.
  setoid_rewrite list_elem_of_singleton. split.
  - intros [? [[=]|(? & -> & Hsel)]]. by rewrite (doc_target_star p) in Hsel.
  - intros [? Hsel]. split; [done|]. right. exists p. split; [done|].
    by rewrite (doc_target_star p).
Qed.

(** C4 (code_bug): a doc query given a glob pattern should return the
    names the glob matches, in all five tables.  [returner_doc] does
    not: the glob [sqlite3.get_*] matches the returner [sqlite3.get_fun],
    and [returner_doc] asked for it returns an empty mapping. *)
Theorem C4_returner_doc_glob_pattern_is_not_matched :
  ∀ strip_text : string → string,
    "sqlite3.get_fun" ∈ keys returners_table
    ∧ fnmatch.fnmatchcase "sqlite3.get_fun" "sqlite3.get_*" = Ok true
    ∧ returner_doc strip_text returners_table ["sqlite3.get_*"] = Ok ∅.
Proof.
  intros strip_text.
  split_and!; [vm_compute; constructor | reflexivity | reflexivity].
Qed.

(** ** C5: module documentation in [state_doc] *)

(** The other doc queries record names of the table only. *)
Lemma doc_keys_in_table (strip_text : string → string) (d : table)
    (args : list string) :
  Forall (λ q : table → list string → result docs_t,
            ∀ docs, q d args = Ok docs → ∀ k, k ∈ dom docs → k ∈ keys d)
    [doc strip_text; runner_doc strip_text; returner_doc strip_text;
     renderer_doc strip_text].
Proof.
  assert (∀ docs, doc strip_text d args = Ok docs →
          ∀ k, k ∈ dom docs → k ∈ keys d) as Hdoc.
  { intros docs Hrun k Hk. pose proof (doc_spec strip_text d args) as H.
    rewrite Hrun in H. by apply H in Hk as [? _]. }
  repeat constructor; [exact Hdoc | exact Hdoc | |].
  - intros docs Hrun k Hk.
    destruct (returner_doc_spec strip_text d args) as (docs' & Hrun' & H).
    rewrite Hrun in Hrun'. injection Hrun' as <-. by apply H in Hk as [? _].
  - intros docs Hrun k Hk. pose proof (renderer_doc_spec strip_text d args) as H.
    rewrite Hrun in H. by apply H in Hk as [? _].
Qed.

(** The scenario of the specification: asked for [service], [state_doc]
    returns the module documentation under [service] and the function
    documentation under [service.running]. *)
Lemma state_doc_service (strip_text : string → string) :
  ∃ docs, state_doc strip_text service_table ["service"] = Ok docs
    ∧ docs !! "service" = Some (Some (strip_text "Service state module"))
    ∧ docs !! "service.running"
      = Some (Some (strip_text "Ensure the service is running"))
    ∧ dom docs = {["service"; "service.running"]}.
Proof.
  eexists. split; [reflexivity|].
  split_and!; [by vm_compute | by vm_compute |].
  rewrite dom_strip_rst. by vm_compute.
Qed.

(** C5 (code_bug): [state_doc] should record the module documentation
    under the module's key the first time the module is met, once per
    module.  Without arguments and on the prefix path it does; on the
    glob path every matched function records it again, so the key [file]
    ends with the documentation of the last matched function instead of
    the first. *)
Theorem C5_state_doc_glob_records_module_doc_per_function :
  ∀ strip_text : string → string,
    ∃ docs_all docs_prefix docs_glob,
      state_doc strip_text file_table [] = Ok docs_all
      ∧ state_doc strip_text file_table ["file"] = Ok docs_prefix
      ∧ state_doc strip_text file_table ["file.*"] = Ok docs_glob
      ∧ docs_all !! "file" = Some (Some (strip_text "File state module"))
      ∧ docs_prefix !! "file" = Some (Some (strip_text "File state module"))
      ∧ docs_glob !! "file" = Some (Some (strip_text "Decorator helpers")).
Proof.
  intros strip_text. do 3 eexists.
  split_and!; [reflexivity | reflexivity | reflexivity | by vm_compute..].
Qed.

(** ** C6: the list queries return sorted lists without duplicates *)

(** C6: on a table (a dict: its names are distinct) and any patterns,
    each list query returns a list that is sorted in ascending order and
    free of duplicates; it returns unless a pattern is malformed. *)
Theorem C6_list_queries_sorted_dedup (d : table) (args : list string) :
  NoDup (keys d) →
  Forall (λ q : table → list string → result (list string),
            match q d args with
            | Ok l => Sorted String.le l ∧ NoDup l
            | Raise _ => ∃ p, p ∈ args ∧ malformed p
            end)
    (list_function_queries ++ list_module_queries ++ [list_renderers]).
Proof.
  intros Hd.
  assert (match list_functions d args with
          | Ok l => Sorted String.le l ∧ NoDup l
          | Raise _ => ∃ p, p ∈ args ∧ malformed p
          end) as Hfun.
  { destruct args as [|a args'].
    - simpl. split; [apply sorted_Sorted | by apply NoDup_sorted].
    - pose proof (list_functions_args d (a :: args') ltac:(done)) as H.
      destruct (list_functions d (a :: args')); naive_solver. }
  assert (match list_modules d args with
          | Ok l => Sorted String.le l ∧ NoDup l
          | Raise _ => ∃ p, p ∈ args ∧ malformed p
          end) as Hmod.
  { destruct args as [|a args'].
    - destruct (list_modules_noargs d) as (l & -> & ? & ? & _). done.
    - pose proof (list_modules_args d (a :: args') ltac:(done)) as H.
      destruct (list_modules d (a :: args')); naive_solver. }
  unfold list_function_queries, list_module_queries. simpl.
  repeat constructor;
    [exact Hfun | exact Hfun | exact Hfun | | exact Hmod | exact Hmod
    | exact Hmod | exact Hmod |].
  - destruct args as [|a args'].
    + simpl. split; [apply sorted_Sorted | by apply NoDup_sorted].
    + destruct (list_returner_functions_args d (a :: args') ltac:(done))
        as (l & -> & ? & ? & _). done.
  - pose proof (list_renderers_spec d args) as H.
    destruct (list_renderers d args); naive_solver.
Qed.

Lemma C6_list_queries_sorted_dedup_witness :
  NoDup (keys minion_table)
  ∧ Forall (λ q : table → list string → result (list string),
              match q minion_table ["sys.*"; "user"] with
              | Ok l => Sorted String.le l ∧ NoDup l
              | Raise _ => ∃ p, p ∈ ["sys.*"; "user"] ∧ malformed p
              end)
      (list_function_queries ++ list_module_queries ++ [list_renderers]).
Proof.
  assert (NoDup (keys minion_table)) as Hd
    by (apply (bool_decide_unpack (NoDup (keys minion_table))); vm_compute;
        exact I).
  split; [exact Hd|].
  exact (C6_list_queries_sorted_dedup minion_table ["sys.*"; "user"] Hd).
Defined.

(** ** C7: the empty pattern *)

(** C7 (amended): the empty pattern is an empty prefix.  Each doc query
    asked for it records every name of the table, each list-functions
    query returns every name of the table, and only the list-modules
    queries, which hand it to the glob matcher, return nothing. *)
Theorem C7_empty_pattern_selects_every_name :
  ∀ (strip_text : string → string) (d : table),
    Forall (λ q : table → list string → result docs_t,
              ∃ docs, q d [""] = Ok docs ∧ ∀ k, k ∈ keys d → k ∈ dom docs)
      (doc_queries strip_text)
    ∧ Forall (λ q : table → list string → result (list string),
                ∃ l, q d [""] = Ok l ∧ ∀ k, k ∈ l ↔ k ∈ keys d)
        list_function_queries
    ∧ Forall (λ q : table → list string → result (list string),
                q d [""] = Ok [])
        list_module_queries.
Proof.
  intros strip_text d.
  assert ("" ∈ [""]) as Hin by apply list_elem_of_here.
  assert (∀ k, doc_selects "" k) as Hsel.
  { intros k. right. apply startswith_empty. }
  split_and!.
  - assert (∃ docs, doc strip_text d [""] = Ok docs
              ∧ ∀ k, k ∈ keys d → k ∈ dom docs) as Hdoc.
    { pose proof (doc_spec strip_text d [""]) as H.
      destruct (doc strip_text d [""]) as [docs|e].
      - exists docs. split; [done|]. intros k Hk. apply H. eauto.
      - destruct H as (p & ->%list_elem_of_singleton & [=] & _). }
    unfold doc_queries. repeat constructor; [exact Hdoc | | exact Hdoc | |].
    + pose proof (state_doc_args strip_text d [""] ltac:(done)) as H.
      destruct (state_doc strip_text d [""]) as [docs|e].
      * exists docs. split; [done|]. intros k Hk. apply H.
        exists "". split; [done|]. left. eauto.
      * destruct H as (p & ->%list_elem_of_singleton & [=] & _).
    + destruct (returner_doc_spec strip_text d [""]) as (docs & Hrun & H).
      exists docs. split; [done|]. intros k Hk. apply H. split; [done|].
      right. exists "". split; [done|]. right. apply startswith_empty.
    + destruct (renderer_doc_plain_pattern strip_text d "" eq_refl)
        as (docs & Hrun & H).
      exists docs. split; [done|]. intros k Hk. by apply H.
  - assert (∃ l, list_functions d [""] = Ok l ∧ ∀ k, k ∈ l ↔ k ∈ keys d)
      as Hlist.
    { pose proof (list_functions_args d [""] ltac:(done)) as H.
      destruct (list_functions d [""]) as [l|e].
      - exists l. split; [done|]. intros k. destruct H as (_ & _ & ->).
        split; [tauto|]. intros Hk. split; [done|]. exists "".
        split; [done|]. apply startswith_empty.
      - destruct H as (p & ->%list_elem_of_singleton & [=] & _). }
    unfold list_function_queries.
    repeat constructor; [exact Hlist | exact Hlist | exact Hlist |].
    destruct (list_returner_functions_args d [""] ltac:(done))
      as (l & Hrun & _ & _ & H).
    exists l. split; [done|]. intros k. rewrite H.
    split; [tauto|]. intros Hk. split; [done|]. exists "".
    split; [done|]. apply startswith_empty.
  - assert (list_modules d [""] = Ok []) as Hmod.
    { pose proof (list_modules_args d [""] ltac:(done)) as H.
      destruct (list_modules d [""]) as [l|e].
      - f_equal. destruct H as (_ & _ & H). apply elem_of_nil_inv. intros m.
        rewrite H. intros (name & _ & (p & ->%list_elem_of_singleton & Hm) & Hseg).
        rewrite fnmatchcase_empty in Hm. by destruct name.
      - destruct H as (p & ->%list_elem_of_singleton & []). }
    unfold list_module_queries. repeat constructor; exact Hmod.
Qed.

(** C7 as stated fails: asked for the empty pattern, [list_functions]
    returns every name of the table, none of which starts with a dot. *)
Lemma C7_empty_pattern_selects_all :
  list_functions sys_table [""] = Ok ["sys.doc"; "sysctl.get"]
  ∧ startswith "sys.doc" "." = false
  ∧ startswith "sysctl.get" "." = false.
Proof. split_and!; reflexivity. Qed.

(** ** C8: module names *)

Lemma module_segment_examples :
  module_segment "sys.doc" = Some "sys"
  ∧ module_segment "sys.list_functions" = Some "sys"
  ∧ module_segment "a.b.c" = Some "a"
  ∧ module_segment "bare" = None.
Proof. done. Qed.

(** C8: the loop of the list-modules queries collects, from the matched
    names, the text before the first dot of every name that has a dot;
    each list-modules query returns these module names sorted and
    without duplicates.  The names [sys.doc], [sys.list_functions] and
    [user.info] give [sys] and [user]; the name [bare] gives nothing. *)
Theorem C8_list_modules_module_segments :
  (∀ (names : list string) (m : string),
     m ∈ foldl add_module ∅ names
     ↔ ∃ name, name ∈ names ∧ module_segment name = Some m)
  ∧ (∀ (d : table) (args : list string),
       Forall (λ q : table → list string → result (list string),
                 match q d args with
                 | Ok l =>
                     Sorted String.le l ∧ NoDup l
                     ∧ ∀ m, m ∈ l
                            ↔ ∃ name, name ∈ keys d
                                ∧ (args = []
                                   ∨ ∃ p, p ∈ args
                                       ∧ fnmatch.fnmatchcase name p = Ok true)
                                ∧ module_segment name = Some m
                 | Raise _ => ∃ p, p ∈ args ∧ malformed p
                 end)
         list_module_queries)
  ∧ list_modules minion_table [] = Ok ["sys"; "user"]
  ∧ list_modules bare_table [] = Ok [].
Proof.
  split_and!; [| |reflexivity..].
  - intros names m. rewrite elem_of_foldl_add_module. set_solver.
  - intros d args.
    assert (match list_modules d args with
            | Ok l =>
                Sorted String.le l ∧ NoDup l
                ∧ ∀ m, m ∈ l
                       ↔ ∃ name, name ∈ keys d
                           ∧ (args = []
                              ∨ ∃ p, p ∈ args
                                  ∧ fnmatch.fnmatchcase name p = Ok true)
                           ∧ module_segment name = Some m
            | Raise _ => ∃ p, p ∈ args ∧ malformed p
            end) as Hmod.
    { destruct args as [|a args'].
      - destruct (list_modules_noargs d) as (l & -> & ? & ? & H).
        split_and!; [done..|]. intros m. rewrite H. naive_solver.
      - pose proof (list_modules_args d (a :: args') ltac:(done)) as H.
        destruct (list_modules d (a :: args')) as [l|e]; [|done].
        destruct H as (? & ? & H). split_and!; [done..|].
        intros m. rewrite H. naive_solver. }
    unfold list_module_queries. repeat constructor; exact Hmod.
Qed.

(** ** C9: malformed patterns *)

Lemma malformed_reversed_range : malformed "[z-a]*".
Proof. exact I. Qed.

(** The returner queries never raise. *)
Lemma returner_queries_total (strip_text : string → string) (d : table)
    (args : list string) :
  ¬ raises (returner_doc strip_text d args)
  ∧ ¬ raises (list_returner_functions d args).
Proof.
  split.
  - destruct (returner_doc_spec strip_text d args) as (docs & -> & _).
    by intros [].
  - destruct args as [|a args']; [by intros []|].
    destruct (list_returner_functions_args d (a :: args') ltac:(done))
      as (l & -> & _).
    by intros [].
Qed.

(** C9 (amended): no query catches the matcher's error.  A malformed
    pattern among the arguments makes every query that hands it to the
    matcher raise, whatever the other patterns are: the list-modules
    queries and [list_renderers] always, the doc and list-functions
    queries when the pattern holds a [*]. *)
Theorem C9_malformed_pattern_aborts_the_call (strip_text : string → string)
    (d : table) (args : list string) (p : string) :
  p ∈ args → malformed p →
  Forall (λ q : table → list string → result (list string), raises (q d args))
    (list_module_queries ++ [list_renderers])
  ∧ (contains "*" p = true →
     Forall (λ q : table → list string → result (list string),
               raises (q d args))
       [list_functions; list_state_functions; list_runner_functions]
     ∧ Forall (λ q : table → list string → result docs_t, raises (q d args))
         [doc strip_text; state_doc strip_text; runner_doc strip_text;
          renderer_doc strip_text]).
Proof.
  intros Hp Hbad. split.
  - pose proof (list_modules_raises d args p Hp Hbad) as Hmod.
    pose proof (list_renderers_raises d args p Hp Hbad) as Hren.
    unfold list_module_queries. simpl.
    repeat constructor; [exact Hmod | exact Hmod | exact Hmod | exact Hmod
                        | exact Hren].
  - intros Hstar. split.
    + pose proof (list_functions_raises d args p Hp Hstar Hbad) as Hfun.
      repeat constructor; exact Hfun.
    + pose proof (doc_raises strip_text d args p Hp Hstar Hbad) as Hdoc.
      pose proof (state_doc_raises strip_text d args p Hp Hstar Hbad) as Hst.
      pose proof (renderer_doc_raises strip_text d args p Hp Hstar Hbad) as Hren.
      repeat constructor; [exact Hdoc | exact Hst | exact Hdoc | exact Hren].
Qed.

Lemma C9_malformed_pattern_aborts_the_call_witness :
  "[z-a]*" ∈ ["sys.*"; "[z-a]*"]
  ∧ malformed "[z-a]*"
  ∧ Forall (λ q : table → list string → result (list string),
              raises (q sys_table ["sys.*"; "[z-a]*"]))
      (list_module_queries ++ [list_renderers])
  ∧ (contains "*" "[z-a]*" = true →
     Forall (λ q : table → list string → result (list string),
               raises (q sys_table ["sys.*"; "[z-a]*"]))
       [list_functions; list_state_functions; list_runner_functions]
     ∧ Forall (λ q : table → list string → result docs_t,
                 raises (q sys_table ["sys.*"; "[z-a]*"]))
         [doc id; state_doc id; runner_doc id; renderer_doc id]).
Proof.
  assert ("[z-a]*" ∈ ["sys.*"; "[z-a]*"]) as Hin by (repeat constructor).
  assert (malformed "[z-a]*") as Hbad by (vm_compute; exact I).
  split_and!; [exact Hin | exact Hbad | |];
    apply (C9_malformed_pattern_aborts_the_call id sys_table
             ["sys.*"; "[z-a]*"] "[z-a]*" Hin Hbad).
Defined.

(** C9 as stated fails: alone, the pattern [sys.*] makes [list_modules]
    return [sys]; together with a malformed pattern the call raises and
    returns nothing. *)
Lemma C9_malformed_pattern_is_call_fatal :
  list_modules sys_table ["sys.*"] = Ok ["sys"]
  ∧ list_modules sys_table ["sys.*"; "[z-a]*"]
    = Raise (re_error "bad character range").
Proof. split; reflexivity. Qed.

(** ** C10: [reload_modules] *)

(** C10: [reload_modules] returns [True] and leaves every table of the
    minion as it was. *)
Theorem C10_reload_modules_returns_true (m : minion) :
  reload_modules m = (true, m).
Proof. reflexivity. Qed.

(** ** Values of the doc queries *)

Lemma strip_rst_fmap (strip_text : string → string) (docs : docs_t) :
  _strip_rst strip_text docs = strip_value strip_text <$> docs.
Proof. reflexivity. Qed.

Lemma lookup_strip_rst (strip_text : string → string) (docs : docs_t)
    (k : string) :
  _strip_rst strip_text docs !! k = strip_value strip_text <$> docs !! k.
Proof. rewrite strip_rst_fmap. apply lookup_fmap. Qed.

Lemma from_table_empty (d : table) : from_table d ∅.
Proof. intros k v. by rewrite lookup_empty. Qed.

Lemma from_table_insert (d : table) (docs : docs_t) (fn : string * callable) :
  fn ∈ d → from_table d docs → from_table d (<[fn.1 := __doc__ fn.2]> docs).
Proof.
  intros Hfn Hdocs k v. destruct (decide (fn.1 = k)) as [<-|Hne].
  - rewrite lookup_insert_eq. intros [= <-]. exists fn.2. by destruct fn.
  - rewrite lookup_insert_ne by done. apply Hdocs.
Qed.

Lemma from_table_foldl_record (d l : table) (acc : docs_t) :
  (∀ fn, fn ∈ l → fn ∈ d) → from_table d acc →
  from_table d (foldl (λ docs fn, <[fn.1 := __doc__ fn.2]> docs) acc l).
Proof.
  revert acc; induction l as [|x l IH]; intros acc Hl Hacc; cbn [foldl]; [done|].
  apply IH; [intros; apply Hl; by apply list_elem_of_further|].
  apply from_table_insert; [apply Hl, list_elem_of_here | done].
Qed.

Lemma from_table_foldl_record_if (c : string * callable → bool) (d l : table)
    (acc : docs_t) :
  (∀ fn, fn ∈ l → fn ∈ d) → from_table d acc →
  from_table d (foldl (λ docs fn,
                  if c fn then <[fn.1 := __doc__ fn.2]> docs else docs) acc l).
Proof.
  revert acc; induction l as [|x l IH]; intros acc Hl Hacc; cbn [foldl]; [done|].
  apply IH; [intros; apply Hl; by apply list_elem_of_further|].
  destruct (c x); [|done].
  apply from_table_insert; [apply Hl, list_elem_of_here | done].
Qed.

Lemma fnmatch_filter_sub {A} (name : A → string) (names : list A) (pat : string) l :
  fnmatch.filter name names pat = Ok l → ∀ x, x ∈ l → x ∈ names.
Proof. intros Hl x Hx. by apply (fnmatch_filter_Ok _ _ _ _ Hl) in Hx as [? _]. Qed.

Lemma from_table_strip (strip_text : string → string) (d : table) (docs : docs_t) :
  from_table d docs →
  ∀ k v, _strip_rst strip_text docs !! k = Some v →
         ∃ f, (k, f) ∈ d ∧ v = strip_value strip_text (__doc__ f).
Proof.
  intros Hdocs k v. rewrite lookup_strip_rst.
  destruct (docs !! k) as [v0|] eqn:Hk; [|done]. intros [= <-].
  destruct (Hdocs k v0 Hk) as (f & ? & ->). eauto.
Qed.

(** X1: whatever the patterns, every entry of the mapping a doc query
    returns is the (normalised) docstring of the table's function of that
    name: [doc], [runner_doc], [returner_doc] and [renderer_doc] add no
    other keys and no other texts. *)
Theorem doc_values_from_table :
  ∀ (strip_text : string → string) (d : table) (args : list string),
    Forall (λ q : table → list string → result docs_t,
              ∀ docs, q d args = Ok docs →
              ∀ k v, docs !! k = Some v →
                     ∃ f, (k, f) ∈ d ∧ v = strip_value strip_text (__doc__ f))
      [doc strip_text; runner_doc strip_text; returner_doc strip_text;
       renderer_doc strip_text].
Proof.
  intros strip_text d args.
  assert (∀ docs, doc strip_text d args = Ok docs →
          ∀ k v, docs !! k = Some v →
                 ∃ f, (k, f) ∈ d ∧ v = strip_value strip_text (__doc__ f))
    as Hdoc.
  { unfold doc. destruct args as [|a args'].
    - intros docs [= <-]. apply from_table_strip.
      by apply from_table_foldl_record, from_table_empty.
    - intros docs (raw & Hrun & [= <-])%bind_Ok_inv. apply from_table_strip.
      revert Hrun. apply for_invariant; [|apply from_table_empty].
      intros s module s' _ Hs Hbody. destruct (contains "*" module).
      + apply bind_Ok_inv in Hbody as (funs & Hfuns & [= <-]).
        apply from_table_foldl_record; [|done].
        by apply (fnmatch_filter_sub _ _ _ _ Hfuns).
      + injection Hbody as <-.
        by apply (from_table_foldl_record_if
                    (λ fn, String.eqb fn.1 module
                           || startswith fn.1 (doc_target module))). }
  repeat constructor; [exact Hdoc | exact Hdoc | |].
  - unfold returner_doc. destruct args as [|a args'].
    + intros docs [= <-]. apply from_table_strip.
      by apply from_table_foldl_record, from_table_empty.
    + intros docs (raw & Hrun & [= <-])%bind_Ok_inv. apply from_table_strip.
      revert Hrun. apply for_invariant; [|apply from_table_empty].
      intros s module s' _ Hs Hbody.
      destruct (contains "*" module); injection Hbody as <-;
        by apply (from_table_foldl_record_if
                    (λ fn, String.eqb fn.1 module
                           || startswith fn.1 (doc_target module))).
  - unfold renderer_doc. destruct args as [|a args'].
    + intros docs [= <-]. apply from_table_strip.
      by apply from_table_foldl_record, from_table_empty.
    + intros docs (raw & Hrun & [= <-])%bind_Ok_inv. apply from_table_strip.
      revert Hrun. apply for_invariant; [|apply from_table_empty].
      intros s module s' _ Hs Hbody. destruct (contains "*" module).
      * apply bind_Ok_inv in Hbody as (funs & Hfuns & [= <-]).
        apply from_table_foldl_record; [|done].
        by apply (fnmatch_filter_sub _ _ _ _ Hfuns).
      * injection Hbody as <-. by apply from_table_foldl_record.
Qed.

Lemma lookup_foldl_record_notin (l : table) (acc : docs_t) (k : string) :
  k ∉ keys l →
  foldl (λ docs fn, <[fn.1 := __doc__ fn.2]> docs) acc l !! k = acc !! k.
Proof.
  revert acc; induction l as [|x l IH]; intros acc Hk; cbn [foldl]; [done|].
  rewrite elem_of_keys_cons in Hk. rewrite IH by tauto.
  apply lookup_insert_ne. intros Hx. apply Hk. by left.
Qed.

Lemma lookup_foldl_record (l : table) (acc : docs_t) (k : string) (f : callable) :
  NoDup (keys l) → (k, f) ∈ l →
  foldl (λ docs fn, <[fn.1 := __doc__ fn.2]> docs) acc l !! k = Some (__doc__ f).
Proof.
  revert acc; induction l as [|x l IH]; intros acc Hd Hk; [by inversion Hk|].
  cbn [foldl]. unfold keys in Hd. rewrite fmap_cons in Hd.
  apply NoDup_cons in Hd as [Hx Hd].
  apply elem_of_cons in Hk as [<-|Hk]; [|by apply IH].
  rewrite lookup_foldl_record_notin by done. simpl. apply lookup_insert_eq.
Qed.

(** X2: without arguments, on a table whose names are distinct, [doc],
    [runner_doc], [returner_doc] and [renderer_doc] return the
    (normalised) docstring of every function of the table under its
    name. *)
Theorem doc_noargs_complete (strip_text : string → string) (d : table) :
  NoDup (keys d) →
  Forall (λ q : table → list string → result docs_t,
            ∃ docs, q d [] = Ok docs
              ∧ ∀ k f, (k, f) ∈ d
                       → docs !! k = Some (strip_value strip_text (__doc__ f)))
    [doc strip_text; runner_doc strip_text; returner_doc strip_text;
     renderer_doc strip_text].
Proof.
  intros Hd.
  assert (∃ docs, doc strip_text d [] = Ok docs
            ∧ ∀ k f, (k, f) ∈ d
                     → docs !! k = Some (strip_value strip_text (__doc__ f)))
    as Hdoc.
  { eexists. split; [reflexivity|]. intros k f Hk.
    by rewrite lookup_strip_rst, (lookup_foldl_record d ∅ k f). }
  repeat constructor; exact Hdoc.
Qed.

Lemma doc_noargs_complete_witness :
  NoDup (keys minion_table)
  ∧ Forall (λ q : table → list string → result docs_t,
              ∃ docs, q minion_table [] = Ok docs
                ∧ ∀ k f, (k, f) ∈ minion_table
                         → docs !! k = Some (strip_value id (__doc__ f)))
      [doc id; runner_doc id; returner_doc id; renderer_doc id].
Proof.
  assert (NoDup (keys minion_table)) as Hd
    by (apply (bool_decide_unpack (NoDup (keys minion_table))); vm_compute;
        exact I).
  split; [exact Hd|]. exact (doc_noargs_complete id minion_table Hd).
Defined.

(** ** Values of [state_doc] *)

Lemma item0_split_no_dot (name : string) :
  contains "." (item0 (split "." name)) = false.
Proof.
  induction name as [|a s IH]; [done|]. simpl.
  destruct (Ascii.eqb a ".") eqn:Ha; [done|].
  pose proof (split_nonempty "." s). destruct (split "." s); [done|].
  simpl in *. by rewrite Ha.
Qed.

Lemma dotted_from_table_insert (d : table) (docs : docs_t)
    (fn : string * callable) :
  fn ∈ d → dotted_from_table d docs →
  dotted_from_table d (<[fn.1 := __doc__ fn.2]> docs).
Proof.
  intros Hfn Hdocs k v. destruct (decide (fn.1 = k)) as [<-|Hne].
  - rewrite lookup_insert_eq. intros [= <-] _. exists fn.2. by destruct fn.
  - rewrite lookup_insert_ne by done. apply Hdocs.
Qed.

Lemma dotted_from_table_module_key (d : table) (docs : docs_t)
    (name : string) (v : option string) :
  dotted_from_table d docs →
  dotted_from_table d (<[item0 (split "." name) := v]> docs).
Proof.
  intros Hdocs k v'. destruct (decide (item0 (split "." name) = k)) as [<-|Hne].
  - intros _. by rewrite item0_split_no_dot.
  - rewrite lookup_insert_ne by done. apply Hdocs.
Qed.

Lemma dotted_from_table_record_once (d : table) (docs : docs_t)
    (name : string) (f : callable) :
  dotted_from_table d docs →
  dotted_from_table d (record_state_once (item0 (split "." name)) f docs).
Proof.
  intros Hdocs. unfold record_state_once.
  destruct (docs !! item0 (split "." name)); [done|].
  destruct (__globals__ f); [|done]. by apply dotted_from_table_module_key.
Qed.

Lemma dotted_from_table_record (d : table) (docs : docs_t)
    (name : string) (f : callable) :
  dotted_from_table d docs →
  dotted_from_table d (record_state (item0 (split "." name)) f docs).
Proof.
  intros Hdocs. unfold record_state.
  destruct (__globals__ f); [|done]. by apply dotted_from_table_module_key.
Qed.

Lemma dotted_from_table_foldl (d l : table) (acc : docs_t)
    (body : docs_t → string * callable → docs_t) :
  (∀ docs fn, fn ∈ d → dotted_from_table d docs →
              dotted_from_table d (body docs fn)) →
  (∀ fn, fn ∈ l → fn ∈ d) → dotted_from_table d acc →
  dotted_from_table d (foldl body acc l).
Proof.
  intros Hbody. revert acc; induction l as [|x l IH]; intros acc Hl Hacc;
    cbn [foldl]; [done|].
  apply IH; [intros; apply Hl; by apply list_elem_of_further|].
  apply Hbody; [apply Hl, list_elem_of_here | done].
Qed.

(** X3: in the mapping [state_doc] returns, an entry under a name with a
    dot is always the (normalised) docstring of the table's function of
    that name: the module documentation, filed under a key without dot,
    never takes the place of a function's documentation. *)
Theorem state_doc_function_entries :
  ∀ (strip_text : string → string) (d : table) (args : list string),
    match state_doc strip_text d args with
    | Ok docs =>
        ∀ k v, docs !! k = Some v → contains "." k = true →
               ∃ f, (k, f) ∈ d ∧ v = strip_value strip_text (__doc__ f)
    | Raise _ => ∃ p, p ∈ args ∧ contains "*" p = true ∧ malformed p
    end.
Proof.
  intros strip_text d args.
  assert (∀ raw, dotted_from_table d raw →
          ∀ k v, _strip_rst strip_text raw !! k = Some v →
                 contains "." k = true →
                 ∃ f, (k, f) ∈ d ∧ v = strip_value strip_text (__doc__ f))
    as Hstrip.
  { intros raw Hraw k v. rewrite lookup_strip_rst.
    destruct (raw !! k) as [v0|] eqn:Hk; [|done]. intros [= <-] Hdot.
    destruct (Hraw k v0 Hk Hdot) as (f & ? & ->). eauto. }
  destruct args as [|a args'].
  { simpl. apply Hstrip. apply dotted_from_table_foldl; [|done|].
    - intros docs fn Hfn Hdocs.
      by apply dotted_from_table_insert, dotted_from_table_record_once.
    - intros k v. by rewrite lookup_empty. }
  pose proof (state_doc_args strip_text d (a :: args') ltac:(done)) as Hspec.
  destruct (state_doc strip_text d (a :: args')) as [docs|e] eqn:Hrun;
    [clear Hspec|exact Hspec].
  unfold state_doc in Hrun.
  apply bind_Ok_inv in Hrun as (raw & Hrun & [= <-]). apply Hstrip.
  revert Hrun. apply for_invariant; [|intros k v; by rewrite lookup_empty].
  intros s module s' _ Hs Hbody. destruct (contains "*" module).
  - apply bind_Ok_inv in Hbody as (funs & Hfuns & [= <-]).
    apply dotted_from_table_foldl;
      [|by apply (fnmatch_filter_sub _ _ _ _ Hfuns)|done].
    intros docs fn Hfn Hdocs.
    by apply dotted_from_table_insert, dotted_from_table_record.
  - injection Hbody as <-. apply dotted_from_table_foldl; [|done|done].
    intros docs fn Hfn Hdocs.
    destruct (String.eqb fn.1 module || startswith fn.1 (doc_target module));
      [|done].
    by apply dotted_from_table_insert, dotted_from_table_record_once.
Qed.

(** The loops of [state_doc] that guard the module key with
    [if state not in docs]: the key [s] stays absent while no selected
    function files under it, and stays as it is once present. *)
Lemma foldl_once_absent (state_of : string → string) (c : string → bool)
    (s : string) (l : table) (acc : docs_t) :
  acc !! s = None →
  (∀ fn, fn ∈ l → c fn.1 = true → fn.1 ≠ s) →
  (∀ fn, fn ∈ l → c fn.1 = true → state_of fn.1 = s → __globals__ fn.2 = None) →
  foldl (λ docs fn,
           if c fn.1
           then <[fn.1 := __doc__ fn.2]>
                  (record_state_once (state_of fn.1) fn.2 docs)
           else docs) acc l !! s = None.
Proof.
  revert acc; induction l as [|x l IH]; intros acc Hacc Hkey Hglob;
    cbn [foldl]; [done|].
  apply IH.
  - destruct (c x.1) eqn:Hx; [|done].
    rewrite lookup_insert_ne by (apply Hkey; [apply list_elem_of_here|done]).
    unfold record_state_once. destruct (acc !! state_of x.1); [done|].
    destruct (__globals__ x.2) as [md|] eqn:Hmd; [|done].
    apply lookup_insert_None. split; [done|]. intros Hs.
    rewrite (Hglob x (list_elem_of_here _ _) Hx Hs) in Hmd. done.
  - intros fn Hfn. apply Hkey. by apply list_elem_of_further.
  - intros fn Hfn. apply Hglob. by apply list_elem_of_further.
Qed.

Lemma foldl_once_kept (state_of : string → string) (c : string → bool)
    (s : string) (v : option string) (l : table) (acc : docs_t) :
  acc !! s = Some v →
  (∀ fn, fn ∈ l → c fn.1 = true → fn.1 ≠ s) →
  foldl (λ docs fn,
           if c fn.1
           then <[fn.1 := __doc__ fn.2]>
                  (record_state_once (state_of fn.1) fn.2 docs)
           else docs) acc l !! s = Some v.
Proof.
  revert acc; induction l as [|x l IH]; intros acc Hacc Hkey;
    cbn [foldl]; [done|].
  apply IH; [|intros fn Hfn; apply Hkey; by apply list_elem_of_further].
  destruct (c x.1) eqn:Hx; [|done].
  rewrite lookup_insert_ne by (apply Hkey; [apply list_elem_of_here|done]).
  unfold record_state_once.
  destruct (acc !! state_of x.1) eqn:Hst; [done|].
  destruct (__globals__ x.2) as [md|]; [|done].
  rewrite lookup_insert_ne; [done|]. intros Heq. rewrite Heq in Hst. congruence.
Qed.

Lemma record_state_once_absent (state : string) (f : callable) (docs : docs_t)
    (md : option string) :
  docs !! state = None → __globals__ f = Some md →
  record_state_once state f docs = <[state := md]> docs.
Proof. unfold record_state_once. by intros -> ->. Qed.

Lemma foldl_once_first (state_of : string → string) (c : string → bool)
    (s k : string) (f : callable) (md : option string) (d1 d2 : table)
    (acc : docs_t) :
  acc !! s = None →
  (∀ fn, fn ∈ (d1 ++ (k, f) :: d2)%list → c fn.1 = true → fn.1 ≠ s) →
  (∀ fn, fn ∈ d1 → c fn.1 = true → state_of fn.1 = s → __globals__ fn.2 = None) →
  c k = true → state_of k = s → __globals__ f = Some md →
  foldl (λ docs fn,
           if c fn.1
           then <[fn.1 := __doc__ fn.2]>
                  (record_state_once (state_of fn.1) fn.2 docs)
           else docs) acc (d1 ++ (k, f) :: d2)%list !! s = Some md.
Proof.
  intros Hacc Hkey Hglob Hk Hs Hmd. rewrite foldl_app. cbn [foldl fst snd].
  rewrite Hk, Hs. apply (foldl_once_kept state_of c s md d2).
  - rewrite lookup_insert_ne
      by (apply (Hkey (k, f)); [apply elem_of_app; right; apply list_elem_of_here
                               | done]).
    rewrite record_state_once_absent with (md := md);
      [apply lookup_insert_eq | | done].
    apply foldl_once_absent; [done | | done].
    intros fn Hfn. apply Hkey, elem_of_app. by left.
  - intros fn Hfn. apply Hkey, elem_of_app. right. by apply list_elem_of_further.
Qed.

Lemma dotted_name_not_module_key (name other : string) :
  contains "." name = true → name ≠ item0 (split "." other).
Proof. intros Hdot ->. by rewrite item0_split_no_dot in Hdot. Qed.

(** X4: without arguments, on a table whose names all have a dot,
    [state_doc] files under a module's key the (normalised) module
    documentation of the first function of that module, in iteration
    order, that has [__globals__]. *)
Theorem state_doc_noargs_first_module_doc (strip_text : string → string)
    (d1 d2 : table) (k : string) (f : callable) (md : option string) :
  (∀ fn, fn ∈ (d1 ++ (k, f) :: d2)%list → contains "." fn.1 = true) →
  (∀ fn, fn ∈ d1 → item0 (split "." fn.1) = item0 (split "." k)
                 → __globals__ fn.2 = None) →
  __globals__ f = Some md →
  ∃ docs, state_doc strip_text (d1 ++ (k, f) :: d2)%list [] = Ok docs
    ∧ docs !! item0 (split "." k) = Some (strip_value strip_text md).
Proof.
  intros Hdots Hfirst Hmd. eexists. split; [reflexivity|].
  rewrite lookup_strip_rst.
  pose proof (foldl_once_first (λ name, item0 (split "." name)) (λ _, true)
                (item0 (split "." k)) k f md d1 d2 ∅) as H.
  match goal with |- _ <$> ?x = _ => replace x with (Some md); [done|] end.
  symmetry. apply H; [apply lookup_empty | | | done..].
  - intros fn Hfn _. by apply dotted_name_not_module_key, Hdots.
  - intros fn Hfn _. by apply Hfirst.
Qed.

Lemma state_doc_noargs_first_module_doc_witness :
  (∀ fn, fn ∈ ([] ++ ("file.managed",
                      documented_in "Manage a file" "File state module")
                :: [("file.wraps",
                     documented_in "Wrap a function" "Decorator helpers")])%list
         → contains "." fn.1 = true)
  ∧ (∀ fn : string * callable,
       fn ∈ [] → item0 (split "." fn.1) = item0 (split "." "file.managed")
       → __globals__ fn.2 = None)
  ∧ __globals__ (documented_in "Manage a file" "File state module")
    = Some (Some "File state module")
  ∧ ∃ docs, state_doc id file_table [] = Ok docs
      ∧ docs !! item0 (split "." "file.managed")
        = Some (strip_value id (Some "File state module")).
Proof.
  assert (∀ fn, fn ∈ ([] ++ ("file.managed",
                             documented_in "Manage a file" "File state module")
                       :: [("file.wraps",
                            documented_in "Wrap a function" "Decorator helpers")])%list
                → contains "." fn.1 = true) as Hdots.
  { intros fn Hfn. simpl in Hfn.
    apply elem_of_cons in Hfn as [->|Hfn]; [reflexivity|].
    apply list_elem_of_singleton in Hfn as ->. reflexivity. }
  assert (∀ fn : string * callable,
            fn ∈ [] → item0 (split "." fn.1) = item0 (split "." "file.managed")
            → __globals__ fn.2 = None) as Hfirst
    by (intros fn Hfn; by apply elem_of_nil in Hfn).
  split_and!; [exact Hdots | exact Hfirst | reflexivity |].
  exact (state_doc_noargs_first_module_doc id [] _ "file.managed" _ _
           Hdots Hfirst eq_refl).
Defined.

(** X5: asked for one non-empty pattern without [*], on a table whose
    names all have a dot, [state_doc] files under the pattern's first
    piece the (normalised) module documentation of the first selected
    function, in iteration order, that has [__globals__]. *)
Theorem state_doc_prefix_first_module_doc (strip_text : string → string)
    (d1 d2 : table) (k : string) (f : callable) (md : option string)
    (p : string) :
  p ≠ "" → contains "*" p = false →
  (∀ fn, fn ∈ (d1 ++ (k, f) :: d2)%list → contains "." fn.1 = true) →
  k = p ∨ startswith k (dotted p) = true →
  (∀ fn, fn ∈ d1 → fn.1 = p ∨ startswith fn.1 (dotted p) = true
                 → __globals__ fn.2 = None) →
  __globals__ f = Some md →
  ∃ docs, state_doc strip_text (d1 ++ (k, f) :: d2)%list [p] = Ok docs
    ∧ docs !! item0 (split "." p) = Some (strip_value strip_text md).
Proof.
  intros Hp Hstar Hdots Hk Hfirst Hmd.
  unfold state_doc. rewrite for_singleton. cbn beta zeta. rewrite Hstar.
  eexists. split; [reflexivity|]. rewrite lookup_strip_rst.
  rewrite (doc_target_plain p) by done.
  pose proof (foldl_once_first (λ _, item0 (split "." p))
                (λ name, String.eqb name p || startswith name (dotted p))
                (item0 (split "." p)) k f md d1 d2 ∅) as H.
  match goal with |- _ <$> ?x = _ => replace x with (Some md); [done|] end.
  symmetry. apply H; [apply lookup_empty | | | | done..].
  - intros fn Hfn _. by apply dotted_name_not_module_key, Hdots.
  - intros fn Hfn Hsel%eqb_or_startswith _. by apply Hfirst.
  - by apply eqb_or_startswith.
Qed.

Lemma state_doc_prefix_first_module_doc_witness :
  "file" ≠ "" ∧ contains "*" "file" = false
  ∧ (∀ fn, fn ∈ ([] ++ ("file.managed",
                        documented_in "Manage a file" "File state module")
                  :: [("file.wraps",
                       documented_in "Wrap a function" "Decorator helpers")])%list
           → contains "." fn.1 = true)
  ∧ ("file.managed" = "file"
     ∨ startswith "file.managed" (dotted "file") = true)
  ∧ (∀ fn : string * callable,
       fn ∈ [] → fn.1 = "file" ∨ startswith fn.1 (dotted "file") = true
       → __globals__ fn.2 = None)
  ∧ __globals__ (documented_in "Manage a file" "File state module")
    = Some (Some "File state module")
  ∧ ∃ docs, state_doc id file_table ["file"] = Ok docs
      ∧ docs !! item0 (split "." "file")
        = Some (strip_value id (Some "File state module")).
Proof.
  assert ("file" ≠ "") as Hp by discriminate.
  assert (contains "*" "file" = false) as Hstar by reflexivity.
  assert (∀ fn, fn ∈ ([] ++ ("file.managed",
                             documented_in "Manage a file" "File state module")
                       :: [("file.wraps",
                            documented_in "Wrap a function" "Decorator helpers")])%list
                → contains "." fn.1 = true) as Hdots.
  { intros fn Hfn. simpl in Hfn.
    apply elem_of_cons in Hfn as [->|Hfn]; [reflexivity|].
    apply list_elem_of_singleton in Hfn as ->. reflexivity. }
  assert ("file.managed" = "file"
          ∨ startswith "file.managed" (dotted "file") = true) as Hk
    by (right; reflexivity).
  assert (∀ fn : string * callable,
            fn ∈ [] → fn.1 = "file" ∨ startswith fn.1 (dotted "file") = true
            → __globals__ fn.2 = None) as Hfirst
    by (intros fn Hfn; by apply elem_of_nil in Hfn).
  split_and!; [exact Hp | exact Hstar | exact Hdots | exact Hk | exact Hfirst
              | reflexivity |].
  exact (state_doc_prefix_first_module_doc id [] _ "file.managed" _ _ "file"
           Hp Hstar Hdots Hk Hfirst eq_refl).
Defined.

(** ** More on the glob matcher *)

Lemma matches_star_all (s : list ascii) :
  fnmatch.matches [fnmatch.ANY_STAR] s = true.
Proof.
  induction s as [|a s IH]; [done|]. simpl in *. exact IH.
Qed.

(** [*] matches every name. *)
Lemma fnmatchcase_star (name : string) : fnmatch.fnmatchcase name "*" = Ok true.
Proof.
  unfold fnmatch.fnmatchcase. cbn [fnmatch.translate fnmatch.compile].
  change (fnmatch.compile (fnmatch.translate "*")) with (Ok [fnmatch.ANY_STAR]).
  cbn [mbind result_bind]. by rewrite matches_star_all.
Qed.

Lemma chars_app (s1 s2 : string) :
  Strings.String.list_ascii_of_string (s1 +:+ s2)
  = (Strings.String.list_ascii_of_string s1
     ++ Strings.String.list_ascii_of_string s2)%list.
Proof. induction s1 as [|a s1 IH]; [done|]. simpl. by rewrite <- IH. Qed.

Lemma plain_code_literal (s : string) :
  contains "*" s = false → contains "?" s = false →
  plain_code <$> Strings.String.list_ascii_of_string s
  = fnmatch.LITERAL <$> Strings.String.list_ascii_of_string s.
Proof.
  induction s as [|a s IH]; [done|].
  cbn [contains Strings.String.list_ascii_of_string].
  intros [Ha Hs]%orb_false_elim [Ha' Hs']%orb_false_elim.
  rewrite !fmap_cons, IH by done. unfold plain_code. by rewrite Ha, Ha'.
Qed.

Lemma glob_free_spec (p : string) :
  glob_free p = true
  ↔ contains "*" p = false ∧ contains "?" p = false ∧ contains "[" p = false.
Proof.
  unfold glob_free. rewrite negb_true_iff, !orb_false_iff. tauto.
Qed.

Lemma matches_literal (s name : string) :
  fnmatch.matches (fnmatch.LITERAL <$> Strings.String.list_ascii_of_string s)
    (Strings.String.list_ascii_of_string name)
  = String.eqb name s.
Proof.
  revert name; induction s as [|b s IH]; intros [|a name]; try done.
  simpl. by rewrite <- IH.
Qed.

Lemma matches_literal_star (s name : string) :
  fnmatch.matches
    ((fnmatch.LITERAL <$> Strings.String.list_ascii_of_string s)
     ++ [fnmatch.ANY_STAR])%list
    (Strings.String.list_ascii_of_string name)
  = startswith name s.
Proof.
  revert name; induction s as [|b s IH]; intros name.
  - rewrite startswith_empty. apply matches_star_all.
  - destruct name as [|a name]; [done|].
    cbn [Strings.String.list_ascii_of_string fmap list_fmap app
         fnmatch.matches startswith].
    f_equal. apply IH.
Qed.

(** A pattern without glob metacharacters matches itself only. *)
Lemma fnmatchcase_glob_free (name p : string) :
  glob_free p = true → fnmatch.fnmatchcase name p = Ok (String.eqb name p).
Proof.
  intros (Hstar & Hq & Hbr)%glob_free_spec.
  unfold fnmatch.fnmatchcase, fnmatch.translate.
  rewrite compile_translate_plain by by apply contains_chars.
  rewrite plain_code_literal by done. cbn [mbind result_bind].
  by rewrite matches_literal.
Qed.

(** A pattern without glob metacharacters followed by [*] matches the
    names that start with it. *)
Lemma fnmatchcase_prefix_star (name s : string) :
  glob_free s = true →
  fnmatch.fnmatchcase name (s +:+ "*") = Ok (startswith name s).
Proof.
  intros (Hstar & Hq & Hbr)%glob_free_spec.
  unfold fnmatch.fnmatchcase, fnmatch.translate.
  rewrite chars_app, compile_translate_plain.
  - rewrite fmap_app, plain_code_literal by done. cbn [mbind result_bind].
    by rewrite matches_literal_star.
  - rewrite forallb_app, (contains_chars "[" s) by done. done.
Qed.

Lemma sorted_lists_equal (l1 l2 : list string) :
  Sorted String.le l1 → NoDup l1 → Sorted String.le l2 → NoDup l2 →
  (∀ k, k ∈ l1 ↔ k ∈ l2) → l1 = l2.
Proof.
  intros Hs1 Hn1 Hs2 Hn2 Hel.
  apply (Sorted_unique String.le); [done..|]. by apply NoDup_Permutation.
Qed.

(** ** The pattern [*] *)

Lemma fnmatch_filter_star {A} (name : A → string) (names : list A) :
  fnmatch.filter name names "*" = Ok names.
Proof.
  unfold fnmatch.filter.
  change (fnmatch.compile (fnmatch.translate "*")) with (Ok [fnmatch.ANY_STAR]).
  cbn [mbind result_bind]. f_equal.
  induction names as [|x names IH]; [done|]. cbn [List.filter].
  by rewrite matches_star_all, IH.
Qed.

Lemma not_malformed_star : ¬ malformed "*".
Proof. by intros []. Qed.

(** X6: on a table whose names are distinct, the pattern [*] makes
    [list_functions], [list_state_functions], [list_runner_functions],
    the four list-modules queries and [list_renderers] return what they
    return without arguments. *)
Theorem list_queries_star_is_everything (d : table) :
  NoDup (keys d) →
  Forall (λ q : table → list string → result (list string),
            q d ["*"] = q d [])
    ([list_functions; list_state_functions; list_runner_functions]
     ++ list_module_queries ++ [list_renderers]).
Proof.
  intros Hd.
  assert ("*" ∈ ["*"]) as Hin by apply list_elem_of_here.
  assert (list_functions d ["*"] = list_functions d []) as Hfun.
  { pose proof (list_functions_args d ["*"] ltac:(done)) as H.
    destruct (list_functions d ["*"]) as [l|e].
    - destruct H as (Hs & Hn & Hel). simpl. f_equal.
      apply sorted_lists_equal;
        [done | done | apply sorted_Sorted | by apply NoDup_sorted |].
      intros k. rewrite Hel, elem_of_sorted. split; [tauto|].
      intros Hk. split; [done|]. exists "*". split; [done|].
      apply fnmatchcase_star.
    - destruct H as (p & ->%list_elem_of_singleton & _ & Hbad).
      by destruct not_malformed_star. }
  assert (list_modules d ["*"] = list_modules d []) as Hmod.
  { pose proof (list_modules_args d ["*"] ltac:(done)) as H.
    destruct (list_modules_noargs d) as (l0 & -> & Hs0 & Hn0 & Hel0).
    destruct (list_modules d ["*"]) as [l|e].
    - destruct H as (Hs & Hn & Hel). f_equal.
      apply sorted_lists_equal; [done..|].
      intros m. rewrite Hel, Hel0. split.
      + intros (name & ? & _ & ?). eauto.
      + intros (name & ? & ?). exists name. split_and!; [done| |done].
        exists "*". split; [done | apply fnmatchcase_star].
    - destruct H as (p & ->%list_elem_of_singleton & Hbad).
      by destruct not_malformed_star. }
  unfold list_module_queries. simpl.
  repeat constructor;
    [exact Hfun | exact Hfun | exact Hfun | exact Hmod | exact Hmod
    | exact Hmod | exact Hmod |].
  pose proof (list_renderers_spec d ["*"]) as H.
  pose proof (list_renderers_spec d []) as H0.
  destruct (list_renderers d []) as [l0|e0]; [|by destruct H0 as (? & []%elem_of_nil & _)].
  destruct (list_renderers d ["*"]) as [l|e].
  - destruct H as (Hs & Hn & Hel), H0 as (Hs0 & Hn0 & Hel0). f_equal.
    apply sorted_lists_equal; [done..|].
    intros k. rewrite Hel, Hel0. split; [intros [? _]; auto|].
    intros [Hk _]. split; [done|]. right. exists "*".
    split; [done | apply fnmatchcase_star].
  - destruct H as (p & ->%list_elem_of_singleton & Hbad).
    by destruct not_malformed_star.
Qed.

Lemma list_queries_star_is_everything_witness :
  NoDup (keys minion_table)
  ∧ Forall (λ q : table → list string → result (list string),
              q minion_table ["*"] = q minion_table [])
      ([list_functions; list_state_functions; list_runner_functions]
       ++ list_module_queries ++ [list_renderers]).
Proof.
  assert (NoDup (keys minion_table)) as Hd
    by (apply (bool_decide_unpack (NoDup (keys minion_table))); vm_compute;
        exact I).
  split; [exact Hd|]. exact (list_queries_star_is_everything minion_table Hd).
Defined.

(** X7: the pattern [*] makes [doc], [runner_doc] and [renderer_doc]
    return the mapping they return without arguments. *)
Theorem doc_queries_star_is_everything :
  ∀ (strip_text : string → string) (d : table),
    Forall (λ q : table → list string → result docs_t, q d ["*"] = q d [])
      [doc strip_text; runner_doc strip_text; renderer_doc strip_text].
Proof.
  intros strip_text d.
  assert (doc strip_text d ["*"] = doc strip_text d []) as Hdoc.
  { unfold doc. rewrite for_singleton. cbn beta zeta.
    change (contains "*" "*") with true. cbn iota.
    change (doc_target "*") with "*". by rewrite fnmatch_filter_star. }
  repeat constructor; [exact Hdoc | exact Hdoc |].
  unfold renderer_doc. rewrite for_singleton. cbn beta zeta.
  change (contains "*" "*") with true. cbn iota.
  by rewrite fnmatch_filter_star.
Qed.

(** ** One pattern in the list-functions queries *)

Lemma contains_app (c : ascii) (s1 s2 : string) :
  contains c (s1 +:+ s2) = contains c s1 || contains c s2.
Proof.
  induction s1 as [|a s1 IH]; [done|]. simpl. by rewrite IH, orb_assoc.
Qed.

Lemma endswith_app_dot (p : string) : endswith (p +:+ ".") "." = true.
Proof.
  induction p as [|a p IH]; [done|].
  change (String a p +:+ ".") with (String a (p +:+ ".")).
  cbn [endswith]. rewrite IH. by destruct p.
Qed.

Lemma endswith_dotted (p : string) : p ≠ "" → endswith (dotted p) "." = true.
Proof.
  intros Hp. unfold dotted. destruct (endswith p ".") eqn:Hend; [done|].
  apply endswith_app_dot.
Qed.

Lemma contains_dotted (c : ascii) (p : string) :
  c ≠ "."%char → contains c (dotted p) = contains c p.
Proof.
  intros Hc. unfold dotted. destruct (endswith p "."); [done|].
  rewrite contains_app. cbn [contains].
  destruct (Ascii.eqb_spec "." c) as [Heq|_]; [by destruct Hc|].
  by destruct (contains c p).
Qed.

Lemma dotted_nonempty (p : string) : p ≠ "" → dotted p ≠ "".
Proof. unfold dotted. destruct (endswith p "."), p; done. Qed.

Lemma dotted_idemp (p : string) : p ≠ "" → dotted (dotted p) = dotted p.
Proof. intros Hp. unfold dotted at 1. by rewrite endswith_dotted. Qed.

Lemma glob_free_dotted (p : string) : glob_free p = true → glob_free (dotted p) = true.
Proof. unfold glob_free. by rewrite !contains_dotted. Qed.

Lemma list_functions_single_plain (d : table) (p : string) :
  p ≠ "" → contains "*" p = false →
  ∃ l, list_functions d [p] = Ok l
    ∧ Sorted String.le l ∧ NoDup l
    ∧ ∀ k, k ∈ l ↔ k ∈ keys d ∧ startswith k (dotted p) = true.
Proof.
  intros Hp Hstar. pose proof (list_functions_args d [p] ltac:(done)) as H.
  destruct (list_functions d [p]) as [l|e].
  - exists l. destruct H as (? & ? & Hel). split_and!; [done..|].
    intros k. rewrite Hel. setoid_rewrite list_elem_of_singleton.
    rewrite <- (list_target_plain p) by done. split.
    + intros [? (? & -> & Hsel)]. unfold list_selects in Hsel.
      by rewrite Hstar in Hsel.
    + intros [? Hsel]. split; [done|]. exists p. split; [done|].
      unfold list_selects. by rewrite Hstar.
  - destruct H as (p' & ->%list_elem_of_singleton & ? & _). congruence.
Qed.

Lemma list_functions_single_glob (d : table) (p : string) :
  contains "*" p = true → ¬ malformed p →
  ∃ l, list_functions d [p] = Ok l
    ∧ Sorted String.le l ∧ NoDup l
    ∧ ∀ k, k ∈ l ↔ k ∈ keys d ∧ fnmatch.fnmatchcase k p = Ok true.
Proof.
  intros Hstar Hgood. pose proof (list_functions_args d [p] ltac:(done)) as H.
  destruct (list_functions d [p]) as [l|e].
  - exists l. destruct H as (? & ? & Hel). split_and!; [done..|].
    intros k. rewrite Hel. setoid_rewrite list_elem_of_singleton. split.
    + intros [? (? & -> & Hsel)]. unfold list_selects in Hsel.
      by rewrite Hstar in Hsel.
    + intros [? Hsel]. split; [done|]. exists p. split; [done|].
      unfold list_selects. by rewrite Hstar.
  - destruct H as (p' & Hp' & _ & Hbad).
    apply list_elem_of_singleton in Hp' as ->. by destruct Hgood.
Qed.

(** X8: for a non-empty module name [p] without glob metacharacters, the
    glob [p.*] and the plain pattern [p] select the same functions in
    [list_functions], [list_state_functions] and
    [list_runner_functions]. *)
Theorem list_functions_module_glob_is_prefix (d : table) (p : string) :
  p ≠ "" → glob_free p = true →
  Forall (λ q : table → list string → result (list string),
            q d [dotted p +:+ "*"] = q d [p])
    [list_functions; list_state_functions; list_runner_functions].
Proof.
  intros Hp Hfree. pose proof Hfree as (Hstar & Hq & Hbr)%glob_free_spec.
  assert (list_functions d [dotted p +:+ "*"] = list_functions d [p]) as Hfun.
  { destruct (list_functions_single_plain d p Hp Hstar)
      as (l & -> & Hs & Hn & Hel).
    destruct (list_functions_single_glob d (dotted p +:+ "*"))
      as (l' & -> & Hs' & Hn' & Hel').
    - rewrite contains_app. simpl. apply orb_true_r.
    - apply plain_not_malformed. rewrite contains_app, contains_dotted by done.
      by rewrite Hbr.
    - f_equal. apply sorted_lists_equal; [done..|].
      intros k. rewrite Hel, Hel'.
      rewrite fnmatchcase_prefix_star by by apply glob_free_dotted.
      split; intros [? Hk]; (split; [done|]); congruence. }
  repeat constructor; exact Hfun.
Qed.

Lemma list_functions_module_glob_is_prefix_witness :
  "sys" ≠ "" ∧ glob_free "sys" = true
  ∧ Forall (λ q : table → list string → result (list string),
              q sys_table [dotted "sys" +:+ "*"] = q sys_table ["sys"])
      [list_functions; list_state_functions; list_runner_functions].
Proof.
  assert ("sys" ≠ "") as Hp by discriminate.
  assert (glob_free "sys" = true) as Hfree by reflexivity.
  split_and!; [exact Hp | exact Hfree |].
  exact (list_functions_module_glob_is_prefix sys_table "sys" Hp Hfree).
Defined.

Lemma list_target_dotted (p : string) :
  p ≠ "" → contains "*" p = false → list_target (dotted p) = list_target p.
Proof.
  intros Hp Hstar.
  rewrite (list_target_plain p) by done.
  rewrite (list_target_plain (dotted p));
    [by apply dotted_idemp | by rewrite contains_dotted | by apply dotted_nonempty].
Qed.

(** X9: a pattern with and without its trailing dot is the same pattern
    for the four list-functions queries: [sys] and [sys.] return the
    same list. *)
Theorem list_functions_trailing_dot (d : table) (p : string) :
  p ≠ "" → contains "*" p = false →
  Forall (λ q : table → list string → result (list string),
            q d [dotted p] = q d [p])
    list_function_queries.
Proof.
  intros Hp Hstar.
  assert (contains "*" (dotted p) = false) as Hstar'
    by by rewrite contains_dotted.
  assert (list_functions d [dotted p] = list_functions d [p]) as Hfun.
  { unfold list_functions. rewrite !for_singleton. cbn beta zeta.
    by rewrite Hstar, Hstar', list_target_dotted. }
  unfold list_function_queries.
  repeat constructor; [exact Hfun | exact Hfun | exact Hfun |].
  unfold list_returner_functions. rewrite !for_singleton. cbn beta zeta.
  by rewrite Hstar, Hstar', list_target_dotted.
Qed.

Lemma list_functions_trailing_dot_witness :
  "sys" ≠ "" ∧ contains "*" "sys" = false
  ∧ Forall (λ q : table → list string → result (list string),
              q sys_table [dotted "sys"] = q sys_table ["sys"])
      list_function_queries.
Proof.
  assert ("sys" ≠ "") as Hp by discriminate.
  assert (contains "*" "sys" = false) as Hstar by reflexivity.
  split_and!; [exact Hp | exact Hstar |].
  exact (list_functions_trailing_dot sys_table "sys" Hp Hstar).
Defined.

(** ** Patterns without glob metacharacters in the list-modules queries *)

(** X10: a pattern without glob metacharacters names at most one
    function, so a list-modules query asked for it returns the module of
    that function if the table has it and nothing otherwise; a bare
    module name such as [sys] returns nothing. *)
Theorem list_modules_plain_pattern (d : table) (p : string) :
  glob_free p = true →
  Forall (λ q : table → list string → result (list string),
            ∃ l, q d [p] = Ok l
              ∧ ∀ m, m ∈ l ↔ p ∈ keys d ∧ module_segment p = Some m)
    list_module_queries.
Proof.
  intros Hfree. pose proof Hfree as (_ & _ & Hbr)%glob_free_spec.
  assert (∃ l, list_modules d [p] = Ok l
            ∧ ∀ m, m ∈ l ↔ p ∈ keys d ∧ module_segment p = Some m) as Hmod.
  { pose proof (list_modules_args d [p] ltac:(done)) as H.
    destruct (list_modules d [p]) as [l|e].
    - exists l. split; [done|]. destruct H as (_ & _ & Hel). intros m.
      rewrite Hel. split.
      + intros (name & Hname & (p' & Hp' & Hm) & Hseg).
        apply list_elem_of_singleton in Hp' as ->.
        rewrite fnmatchcase_glob_free in Hm by done.
        injection Hm as Hm. apply String.eqb_eq in Hm as ->. done.
      + intros [Hp Hseg]. exists p. split_and!; [done| |done].
        exists p. split; [apply list_elem_of_here|].
        rewrite fnmatchcase_glob_free by done. by rewrite String_eqb_refl.
    - destruct H as (p' & Hp' & Hbad).
      apply list_elem_of_singleton in Hp' as ->.
      by destruct (plain_not_malformed p Hbr). }
  unfold list_module_queries. repeat constructor; exact Hmod.
Qed.

Lemma list_modules_plain_pattern_witness :
  glob_free "sys" = true
  ∧ Forall (λ q : table → list string → result (list string),
              ∃ l, q sys_table ["sys"] = Ok l
                ∧ ∀ m, m ∈ l
                       ↔ "sys" ∈ keys sys_table ∧ module_segment "sys" = Some m)
      list_module_queries.
Proof.
  assert (glob_free "sys" = true) as Hfree by reflexivity.
  split; [exact Hfree|].
  exact (list_modules_plain_pattern sys_table "sys" Hfree).
Defined.

(** ** Which patterns can make a query raise *)

(** X11: a pattern without [*] never reaches the matcher in the doc
    queries and the list-functions queries: if no pattern holds a [*],
    these queries return, whatever brackets the patterns hold. *)
Theorem no_star_no_error (strip_text : string → string) (d : table)
    (args : list string) :
  (∀ p, p ∈ args → contains "*" p = false) →
  Forall (λ q : table → list string → result docs_t, ∃ docs, q d args = Ok docs)
    (doc_queries strip_text)
  ∧ Forall (λ q : table → list string → result (list string),
              ∃ l, q d args = Ok l)
      list_function_queries.
Proof.
  intros Hargs.
  assert (∀ A (r : result A),
            match r with
            | Ok _ => True
            | Raise _ => ∃ p, p ∈ args ∧ contains "*" p = true ∧ malformed p
            end → ∃ a, r = Ok a) as Hok.
  { intros A [a|e]; [eauto|]. intros (p & Hp & Hstar & _).
    rewrite (Hargs p Hp) in Hstar. done. }
  assert (∃ docs, doc strip_text d args = Ok docs) as Hdoc.
  { apply Hok. pose proof (doc_spec strip_text d args) as H.
    by destruct (doc strip_text d args). }
  assert (∃ l, list_functions d args = Ok l) as Hfun.
  { destruct args as [|a args']; [by eexists|]. apply Hok.
    pose proof (list_functions_args d (a :: args') ltac:(done)) as H.
    by destruct (list_functions d (a :: args')). }
  split.
  - unfold doc_queries. repeat constructor; [exact Hdoc | | exact Hdoc | |].
    + destruct args as [|a args'].
      * destruct (state_doc_noargs strip_text d) as (docs & ? & _). eauto.
      * apply Hok.
        pose proof (state_doc_args strip_text d (a :: args') ltac:(done)) as H.
        by destruct (state_doc strip_text d (a :: args')).
    + destruct (returner_doc_spec strip_text d args) as (docs & ? & _). eauto.
    + apply Hok. pose proof (renderer_doc_spec strip_text d args) as H.
      by destruct (renderer_doc strip_text d args).
  - unfold list_function_queries.
    repeat constructor; [exact Hfun | exact Hfun | exact Hfun |].
    destruct args as [|a args']; [by eexists|].
    destruct (list_returner_functions_args d (a :: args') ltac:(done))
      as (l & ? & _). eauto.
Qed.

Lemma no_star_no_error_witness :
  (∀ p, p ∈ ["sys"; "[z-a]"] → contains "*" p = false)
  ∧ malformed "[z-a]"
  ∧ Forall (λ q : table → list string → result docs_t,
              ∃ docs, q sys_table ["sys"; "[z-a]"] = Ok docs)
      (doc_queries id)
  ∧ Forall (λ q : table → list string → result (list string),
              ∃ l, q sys_table ["sys"; "[z-a]"] = Ok l)
      list_function_queries.
Proof.
  assert (∀ p, p ∈ ["sys"; "[z-a]"] → contains "*" p = false) as Hargs.
  { intros p Hp. apply elem_of_cons in Hp as [->|Hp]; [reflexivity|].
    apply list_elem_of_singleton in Hp as ->. reflexivity. }
  split_and!; [exact Hargs | exact I | |];
    apply (no_star_no_error id sys_table ["sys"; "[z-a]"] Hargs).
Defined.

(** X12: [returner_doc] and [list_returner_functions] return for every
    table and all patterns: no pattern, however malformed, makes them
    raise. *)
Theorem returner_queries_never_raise :
  ∀ (strip_text : string → string) (d : table) (args : list string),
    (∃ docs, returner_doc strip_text d args = Ok docs)
    ∧ (∃ l, list_returner_functions d args = Ok l).
Proof.
  intros strip_text d args. split.
  - destruct (returner_doc_spec strip_text d args) as (docs & ? & _). eauto.
  - destruct args as [|a args']; [by eexists|].
    destruct (list_returner_functions_args d (a :: args') ltac:(done))
      as (l & ? & _). eauto.
Qed.

(** ** The patterns of a call as a set *)

Lemma bind_Raise_inv {A B} (r : result A) (k : A → result B) (e : exn) :
  r ≫= k = Raise e → r = Raise e ∨ ∃ a, r = Ok a ∧ k a = Raise e.
Proof. destruct r as [a|e']; simpl; [eauto | intros [= ->]; by left]. Qed.

Lemma set_items_raise (body : list ascii) (e : exn) :
  fnmatch.set_items body = Raise e → e = re_error "bad character range".
Proof.
  remember (length body) as n eqn:Hn.
  assert (length body ≤ n)%nat as Hle by lia. clear Hn.
  revert body Hle. induction n as [|n IH]; intros body Hle.
  { destruct body; [done | simpl in Hle; lia]. }
  destruct body as [|lo [|dash rest']]; [done..|].
  cbn [fnmatch.set_items]. destruct (Ascii.eqb dash "-").
  - destruct rest' as [|hi rest'']; [done|].
    destruct (nat_of_ascii hi <? nat_of_ascii lo)%nat; [by intros [= <-]|].
    intros [Hr|(items & _ & [=])]%bind_Raise_inv.
    apply (IH rest''); [simpl in Hle; lia | done].
  - intros [Hr|(items & _ & [=])]%bind_Raise_inv.
    apply (IH (dash :: rest')); [simpl in *; lia | done].
Qed.

Lemma compile_raise (nodes : list fnmatch.node) (e : exn) :
  fnmatch.compile nodes = Raise e → e = re_error "bad character range".
Proof.
  induction nodes as [|n nodes IH]; [done|]. cbn [fnmatch.compile].
  intros [Hn|(c & _ & [Hr|(cs & _ & [=])]%bind_Raise_inv)]%bind_Raise_inv.
  - destruct n; try done.
    apply bind_Raise_inv in Hn as [Hn|(items & _ & [=])].
    by apply set_items_raise in Hn.
  - by apply IH.
Qed.

Lemma fnmatch_filter_raise {A} (name : A → string) (names : list A)
    (pat : string) (e : exn) :
  fnmatch.filter name names pat = Raise e → e = re_error "bad character range".
Proof.
  unfold fnmatch.filter. intros [Hr|(re & _ & [=])]%bind_Raise_inv.
  by apply compile_raise in Hr.
Qed.

Lemma for_Raise_inv {A S} (l : list A) (body : S → A → result S) (s : S)
    (e : exn) :
  for_ l s body = Raise e → ∃ x s0, x ∈ l ∧ body s0 x = Raise e.
Proof.
  revert s; induction l as [|x l IH]; intros s Hr; simpl in Hr; [done|].
  apply bind_Raise_inv in Hr as [Hr | (s1 & _ & Hr)].
  - exists x, s. split; [apply list_elem_of_here | done].
  - destruct (IH _ Hr) as (y & s0 & Hy & Hr').
    exists y, s0. split; [by apply list_elem_of_further | done].
Qed.

(** The only exception a list query raises is the matcher's. *)
Lemma list_functions_raise (d : table) (args : list string) (e : exn) :
  list_functions d args = Raise e → e = re_error "bad character range".
Proof.
  unfold list_functions. destruct args as [|a args']; [done|].
  intros [Hr|(names & _ & [=])]%bind_Raise_inv.
  apply for_Raise_inv in Hr as (p & s0 & _ & Hr).
  destruct (contains "*" p); [|done].
  apply bind_Raise_inv in Hr as [Hr|(funs & _ & [=])].
  by apply fnmatch_filter_raise in Hr.
Qed.

Lemma list_modules_raise (d : table) (args : list string) (e : exn) :
  list_modules d args = Raise e → e = re_error "bad character range".
Proof.
  unfold list_modules. destruct args as [|a args']; [done|].
  intros [Hr|(names & _ & [=])]%bind_Raise_inv.
  apply for_Raise_inv in Hr as (p & s0 & _ & Hr).
  apply bind_Raise_inv in Hr as [Hr|(funs & _ & [=])].
  by apply fnmatch_filter_raise in Hr.
Qed.

Lemma list_renderers_raise (d : table) (args : list string) (e : exn) :
  list_renderers d args = Raise e → e = re_error "bad character range".
Proof.
  unfold list_renderers. destruct args as [|a args']; [done|].
  intros [Hr|(names & _ & [=])]%bind_Raise_inv.
  apply for_Raise_inv in Hr as (p & s0 & _ & Hr).
  apply bind_Raise_inv in Hr as [Hr|(funs & _ & [=])].
  by apply fnmatch_filter_raise in Hr.
Qed.

(** Two calls of a list query agree when each returns the sorted list,
    without duplicates, of the names some pattern selects, or raises the
    matcher's exception when some pattern is bad, and the two calls have
    the same patterns. *)
Lemma same_patterns_same_result
    (sel : string → string → Prop) (bad : string → Prop)
    (args args' : list string) (r r' : result (list string)) :
  (∀ p, p ∈ args ↔ p ∈ args') →
  match r with
  | Ok l => Sorted String.le l ∧ NoDup l
            ∧ ∀ k, k ∈ l ↔ ∃ p, p ∈ args ∧ sel p k
  | Raise e => e = re_error "bad character range" ∧ ∃ p, p ∈ args ∧ bad p
  end →
  match r' with
  | Ok l => Sorted String.le l ∧ NoDup l
            ∧ ∀ k, k ∈ l ↔ ∃ p, p ∈ args' ∧ sel p k
  | Raise e => e = re_error "bad character range" ∧ ∃ p, p ∈ args' ∧ bad p
  end →
  (∀ p, p ∈ args → bad p → raises r) →
  (∀ p, p ∈ args' → bad p → raises r') →
  r = r'.
Proof.
  intros Hsame H H' Hbad Hbad'. destruct r as [l|e], r' as [l'|e'].
  - destruct H as (? & ? & Hel), H' as (? & ? & Hel'). f_equal.
    apply sorted_lists_equal; [done..|]. intros k. rewrite Hel, Hel'.
    by setoid_rewrite Hsame.
  - destruct H' as (_ & p & Hp & Hk). apply Hsame in Hp.
    by destruct (Hbad p Hp Hk).
  - destruct H as (_ & p & Hp & Hk). apply Hsame in Hp.
    by destruct (Hbad' p Hp Hk).
  - destruct H as [-> _], H' as [-> _]. done.
Qed.

Lemma same_patterns_nil (args' : list string) :
  (∀ p : string, p ∈ [] ↔ p ∈ args') → args' = [].
Proof.
  intros Hsame. apply elem_of_nil_inv. intros p Hp.
  by apply Hsame, elem_of_nil in Hp.
Qed.

(** X13: the patterns of a call count as a set.  Two calls of a list
    query on the same table whose argument lists hold the same patterns,
    in whatever order and however often, return the same list or raise
    the same exception. *)
Theorem list_queries_pattern_set :
  ∀ (d : table) (args args' : list string),
    (∀ p, p ∈ args ↔ p ∈ args') →
    Forall (λ q : table → list string → result (list string),
              q d args = q d args')
      (list_function_queries ++ list_module_queries ++ [list_renderers]).
Proof.
  intros d args args' Hsame.
  destruct args as [|a args0].
  { rewrite (same_patterns_nil args' Hsame).
    apply Forall_forall. done. }
  destruct args' as [|a' args0'].
  { symmetry in Hsame.
    assert (a :: args0 = []) as [=].
    apply same_patterns_nil. intros p. by rewrite Hsame. }
  set (args := a :: args0) in *. set (args' := a' :: args0') in *.
  assert (args ≠ []) as Hne by done. assert (args' ≠ []) as Hne' by done.
  clearbody args args'.
  assert (list_functions d args = list_functions d args') as Hfun.
  { apply (same_patterns_same_result
             (λ p k, k ∈ keys d ∧ list_selects p k)
             (λ p, contains "*" p = true ∧ malformed p) args args' _ _ Hsame).
    - pose proof (list_functions_args d args Hne) as H.
      pose proof (list_functions_raise d args) as Hpay.
      destruct (list_functions d args) as [l|e].
      + destruct H as (? & ? & Hel). split_and!; [done..|].
        intros k. rewrite Hel. naive_solver.
      + split; [by apply Hpay | naive_solver].
    - pose proof (list_functions_args d args' Hne') as H.
      pose proof (list_functions_raise d args') as Hpay.
      destruct (list_functions d args') as [l|e].
      + destruct H as (? & ? & Hel). split_and!; [done..|].
        intros k. rewrite Hel. naive_solver.
      + split; [by apply Hpay | naive_solver].
    - intros p Hp [? ?]. by apply (list_functions_raises d args p).
    - intros p Hp [? ?]. by apply (list_functions_raises d args' p). }
  assert (list_modules d args = list_modules d args') as Hmod.
  { apply (same_patterns_same_result
             (λ p m, ∃ name, name ∈ keys d
                       ∧ fnmatch.fnmatchcase name p = Ok true
                       ∧ module_segment name = Some m)
             malformed args args' _ _ Hsame).
    - pose proof (list_modules_args d args Hne) as H.
      pose proof (list_modules_raise d args) as Hpay.
      destruct (list_modules d args) as [l|e].
      + destruct H as (? & ? & Hel). split_and!; [done..|].
        intros k. rewrite Hel. naive_solver.
      + split; [by apply Hpay | done].
    - pose proof (list_modules_args d args' Hne') as H.
      pose proof (list_modules_raise d args') as Hpay.
      destruct (list_modules d args') as [l|e].
      + destruct H as (? & ? & Hel). split_and!; [done..|].
        intros k. rewrite Hel. naive_solver.
      + split; [by apply Hpay | done].
    - intros p Hp ?. by apply (list_modules_raises d args p).
    - intros p Hp ?. by apply (list_modules_raises d args' p). }
  unfold list_function_queries, list_module_queries. simpl.
  repeat constructor;
    [exact Hfun | exact Hfun | exact Hfun | | exact Hmod | exact Hmod
    | exact Hmod | exact Hmod |].
  - destruct (list_returner_functions_args d args Hne)
      as (l & -> & ? & ? & Hel).
    destruct (list_returner_functions_args d args' Hne')
      as (l' & -> & ? & ? & Hel').
    f_equal. apply sorted_lists_equal; [done..|].
    intros k. rewrite Hel, Hel'. by setoid_rewrite Hsame.
  - apply (same_patterns_same_result
             (λ p k, k ∈ keys d ∧ fnmatch.fnmatchcase k p = Ok true)
             malformed args args' _ _ Hsame).
    + pose proof (list_renderers_spec d args) as H.
      pose proof (list_renderers_raise d args) as Hpay.
      destruct (list_renderers d args) as [l|e].
      * destruct H as (? & ? & Hel). split_and!; [done..|].
        intros k. rewrite Hel. naive_solver.
      * split; [by apply Hpay | done].
    + pose proof (list_renderers_spec d args') as H.
      pose proof (list_renderers_raise d args') as Hpay.
      destruct (list_renderers d args') as [l|e].
      * destruct H as (? & ? & Hel). split_and!; [done..|].
        intros k. rewrite Hel. naive_solver.
      * split; [by apply Hpay | done].
    + intros p Hp ?. by apply (list_renderers_raises d args p).
    + intros p Hp ?. by apply (list_renderers_raises d args' p).
Qed.

Lemma list_queries_pattern_set_witness :
  (∀ p : string, p ∈ ["sys"; "user"] ↔ p ∈ ["user"; "sys"; "user"])
  ∧ Forall (λ q : table → list string → result (list string),
              q minion_table ["sys"; "user"]
              = q minion_table ["user"; "sys"; "user"])
      (list_function_queries ++ list_module_queries ++ [list_renderers]).
Proof.
  assert (∀ p : string, p ∈ ["sys"; "user"] ↔ p ∈ ["user"; "sys"; "user"])
    as Hsame by set_solver.
  split; [exact Hsame|].
  exact (list_queries_pattern_set minion_table _ _ Hsame).
Defined.

(** ** The queries against each other *)

(** X14: for a non-empty pattern without [*], the names [doc] records
    are the names [list_functions] returns, and the pattern itself if it
    is a name of the table. *)
Theorem doc_keys_are_list_functions (strip_text : string → string) (d : table)
    (p : string) :
  p ≠ "" → contains "*" p = false →
  ∃ docs l, doc strip_text d [p] = Ok docs ∧ list_functions d [p] = Ok l
    ∧ ∀ k, k ∈ dom docs ↔ k ∈ l ∨ (k = p ∧ p ∈ keys d).
Proof.
  intros Hp Hstar.
  destruct (list_functions_single_plain d p Hp Hstar) as (l & Hl & _ & _ & Hel).
  pose proof (doc_spec strip_text d [p]) as H.
  destruct (doc strip_text d [p]) as [docs|e].
  - exists docs, l. split_and!; [done..|]. intros k. rewrite H, Hel.
    setoid_rewrite list_elem_of_singleton.
    rewrite <- (doc_target_plain p) by done. split.
    + intros [Hk [[=]|(? & -> & Hsel)]]. unfold doc_selects in Hsel.
      rewrite Hstar in Hsel. destruct Hsel as [->|?]; [by right | by left].
    + intros Hk. assert (k ∈ keys d) as Hin by (destruct Hk as [[? _]|[-> ?]]; done).
      split; [done|]. right. exists p. split; [done|].
      unfold doc_selects. rewrite Hstar.
      destruct Hk as [[_ ?]|[-> _]]; [by right | by left].
  - destruct H as (p' & ->%list_elem_of_singleton & ? & _). congruence.
Qed.

Lemma doc_keys_are_list_functions_witness :
  "sys" ≠ "" ∧ contains "*" "sys" = false
  ∧ ∃ docs l, doc id sys_table ["sys"] = Ok docs
      ∧ list_functions sys_table ["sys"] = Ok l
      ∧ ∀ k, k ∈ dom docs ↔ k ∈ l ∨ (k = "sys" ∧ "sys" ∈ keys sys_table).
Proof.
  assert ("sys" ≠ "") as Hp by discriminate.
  assert (contains "*" "sys" = false) as Hstar by reflexivity.
  split_and!; [exact Hp | exact Hstar |].
  exact (doc_keys_are_list_functions id sys_table "sys" Hp Hstar).
Defined.

(** X15: the list-functions queries and [list_renderers] return names of
    the table only. *)
Theorem list_queries_return_table_names :
  ∀ (d : table) (args : list string),
    Forall (λ q : table → list string → result (list string),
              match q d args with
              | Ok l => ∀ k, k ∈ l → k ∈ keys d
              | Raise _ => ∃ p, p ∈ args ∧ malformed p
              end)
      (list_function_queries ++ [list_renderers]).
Proof.
  intros d args.
  assert (match list_functions d args with
          | Ok l => ∀ k, k ∈ l → k ∈ keys d
          | Raise _ => ∃ p, p ∈ args ∧ malformed p
          end) as Hfun.
  { destruct args as [|a args'].
    - simpl. intros k. by rewrite elem_of_sorted.
    - pose proof (list_functions_args d (a :: args') ltac:(done)) as H.
      destruct (list_functions d (a :: args')) as [l|e].
      + destruct H as (_ & _ & Hel). intros k Hk. by apply Hel in Hk as [? _].
      + destruct H as (p & ? & _ & ?). eauto. }
  unfold list_function_queries. simpl.
  repeat constructor; [exact Hfun | exact Hfun | exact Hfun | |].
  - destruct args as [|a args'].
    + simpl. intros k. by rewrite elem_of_sorted.
    + destruct (list_returner_functions_args d (a :: args') ltac:(done))
        as (l & -> & _ & _ & Hel).
      intros k Hk. by apply Hel in Hk as [? _].
  - pose proof (list_renderers_spec d args) as H.
    destruct (list_renderers d args) as [l|e]; [|done].
    destruct H as (_ & _ & Hel). intros k Hk. by apply Hel in Hk as [? _].
Qed.

(** X16: when every pattern holds a [*] (or there is none),
    [list_modules] returns the modules of the functions [list_functions]
    returns for the same patterns, and raises when it raises. *)
Theorem list_modules_of_list_functions (d : table) (args : list string) :
  (∀ p, p ∈ args → contains "*" p = true) →
  match list_functions d args, list_modules d args with
  | Ok fs, Ok ms =>
      ∀ m, m ∈ ms ↔ ∃ k, k ∈ fs ∧ module_segment k = Some m
  | Raise e, Raise e' => e = e'
  | _, _ => False
  end.
Proof.
  intros Hstar. destruct args as [|a args'].
  { destruct (list_modules_noargs d) as (ms & -> & _ & _ & Hel).
    simpl. intros m. rewrite Hel. by setoid_rewrite elem_of_sorted. }
  set (args := a :: args') in *. assert (args ≠ []) as Hne by done.
  clearbody args.
  pose proof (list_functions_args d args Hne) as Hf.
  pose proof (list_modules_args d args Hne) as Hm.
  pose proof (list_functions_raise d args) as Hpf.
  pose proof (list_modules_raise d args) as Hpm.
  pose proof (list_functions_raises d args) as Hrf.
  pose proof (list_modules_raises d args) as Hrm.
  destruct (list_functions d args) as [fs|e], (list_modules d args) as [ms|e'].
  - destruct Hf as (_ & _ & Hf), Hm as (_ & _ & Hm). intros m.
    rewrite Hm. setoid_rewrite Hf. split.
    + intros (name & ? & (p & Hp & ?) & ?). exists name. split; [|done].
      split; [done|]. exists p. split; [done|].
      unfold list_selects. by rewrite (Hstar p Hp).
    + intros (name & (? & p & Hp & Hsel) & ?). exists name.
      split_and!; [done| |done]. exists p. split; [done|].
      unfold list_selects in Hsel. by rewrite (Hstar p Hp) in Hsel.
  - destruct Hm as (p & Hp & Hbad). by destruct (Hrf p Hp (Hstar p Hp) Hbad).
  - destruct Hf as (p & Hp & _ & Hbad). by destruct (Hrm p Hp Hbad).
  - by rewrite (Hpf e), (Hpm e').
Qed.

Lemma list_modules_of_list_functions_witness :
  (∀ p, p ∈ ["sys.*"; "u*"] → contains "*" p = true)
  ∧ match list_functions minion_table ["sys.*"; "u*"],
          list_modules minion_table ["sys.*"; "u*"] with
    | Ok fs, Ok ms =>
        ∀ m, m ∈ ms ↔ ∃ k, k ∈ fs ∧ module_segment k = Some m
    | Raise e, Raise e' => e = e'
    | _, _ => False
    end.
Proof.
  assert (∀ p, p ∈ ["sys.*"; "u*"] → contains "*" p = true) as Hstar.
  { intros p Hp. apply elem_of_cons in Hp as [->|Hp]; [reflexivity|].
    apply list_elem_of_singleton in Hp as ->. reflexivity. }
  split; [exact Hstar|].
  exact (list_modules_of_list_functions minion_table ["sys.*"; "u*"] Hstar).
Defined.
